(** * Photoshop Live Ditherer: levels, palette matching, Floyd-Steinberg
      error diffusion, preview geometry and the raw-image cache.

    Shallow embedding of the TypeScript sources.

    Numbers.  A JavaScript [number] is an IEEE-754 binary64 value.  Every
    number of this program that can be fractional (the gamma curve of the
    levels, a distance, a diffused error, a scale factor) is a primitive
    [float], evaluated by the same hardware operations the program uses.
    Numbers that are integers by construction (array indices, the bytes of
    a pixel buffer, parsed hex channels, byte differences and their
    squares) are [Z] or [nat]: they stay far below 2^53, where binary64
    arithmetic on integers is exact.  [Math.pow] with a fractional exponent
    is left to the host by ECMAScript and is a parameter of the levels
    code. *)

From Stdlib Require Import ZArith List Bool Lia Floats String Ascii.
From stdpp Require Import base option list.
Import ListNotations.

(** ** JavaScript numbers *)

Module JS.

Definition number := float.

(** The double that holds the integer [z] (exact for |z| < 2^53). *)
Definition of_int (z : Z) : number :=
  if (z <? 0)%Z then (- of_uint63 (Uint63.of_Z (- z)))%float
  else of_uint63 (Uint63.of_Z z).

(** [Math.round]: the nearest integer, ties towards +infinity; NaN,
    infinities, zeros and integers are returned as they are, and a result
    of zero keeps the sign of the argument. *)
Definition Math_round (x : number) : number :=
  match Prim2SF x with
  | S754_finite s m e =>
      if (0 <=? e)%Z then x
      else
        let half := Z.pow 2 (- e - 1) in
        let q := Z.shiftr ((if s then Z.neg m else Z.pos m) + half) (- e) in
        if (q =? 0)%Z then (if s then (-0)%float else 0%float) else of_int q
  | _ => x
  end.

(** [Math.min] and [Math.max] of two numbers: NaN is contagious and
    -0 is below +0. *)
Definition Math_min (a b : number) : number :=
  if is_nan a || is_nan b then nan
  else if (a <? b)%float then a
  else if (b <? a)%float then b
  else if get_sign a then a else b.

Definition Math_max (a b : number) : number :=
  if is_nan a || is_nan b then nan
  else if (a <? b)%float then b
  else if (b <? a)%float then a
  else if get_sign a then b else a.

(** The conversion a [Uint8ClampedArray] applies to a stored number
    (ECMAScript ToUint8Clamp): NaN becomes 0, the value is clamped to
    [0, 255] and rounded to the nearest integer, ties to even. *)
Definition ToUint8Clamp (x : number) : Z :=
  match Prim2SF x with
  | S754_nan | S754_zero _ => 0
  | S754_infinity s => if s then 0 else 255
  | S754_finite true _ _ => 0
  | S754_finite false m e =>
      if (0 <=? e)%Z then Z.min 255 (Z.pos m * Z.pow 2 e)
      else
        let d := Z.pow 2 (- e) in
        let f := Z.shiftr (Z.pos m) (- e) in
        let r := (Z.pos m - f * d)%Z in
        Z.min 255
          (match (2 * r ?= d)%Z with
           | Lt => f
           | Gt => f + 1
           | Eq => if Z.even f then f else f + 1
           end)
  end.

(** The same conversion for a number that is an integer. *)
Definition clamp_byte (z : Z) : Z := Z.max 0 (Z.min 255 z).

End JS.
Import JS.


(** ** types.ts *)

Inductive AlgorithmType :=
  | floyd_steinberg | atkinson | ordered | sierra | stucki | burkes.


Record LevelsSettings := {
  blackPoint : Z;        (* 0-255 *)
  midPoint : number;     (* 0.1-10.0 (gamma) *)
  whitePoint : Z         (* 0-255 *)
}.

Definition DEFAULT_LEVELS : LevelsSettings :=
  {| blackPoint := 0; midPoint := 1%float; whitePoint := 255 |}.

Definition DEFAULT_PALETTE : list string := ["#000000"; "#FFFFFF"]%string.

(** ** Pixel buffers

    An [ImageData] is a width, a height and a [Uint8ClampedArray] of RGBA
    bytes in row-major order.  A store outside the array is dropped, as
    stdpp's list insert does; a store of a number goes through
    [ToUint8Clamp]. *)

Record ImageData := { width : nat; height : nat; data : list Z }.

Definition get (a : list Z) (i : nat) : Z := default 0%Z (a !! i).

Definition store (a : list Z) (i : nat) (v : number) : list Z :=
  <[i := ToUint8Clamp v]> a.

Definition store_int (a : list Z) (i : nat) (v : Z) : list Z :=
  <[i := clamp_byte v]> a.

(** imageDataHelper.ts *)
Definition createImageData (width height : nat) : ImageData :=
  {| width := width; height := height;
     data := replicate (width * height * 4) 0%Z |}.

(** Index of channel 0 of pixel (x, y). *)
Definition pixel_index (width x y : nat) : nat := (y * width + x) * 4.

(** What the data model asks of a buffer: the length fits the dimensions
    and every channel is a byte. *)
Definition valid_image (img : ImageData) : Prop :=
  length (data img) = width img * height img * 4
  /\ Forall (fun v => 0 <= v <= 255)%Z (data img).

(** ** utils/levels.ts *)

Section Levels.

(** [Math.pow] of the host. *)
Variable Math_pow : number -> number -> number.

Definition applyLevels (value blackPoint : Z) (midPoint : number)
    (whitePoint : Z) : number :=
  (* Clip to input range *)
  if (value <=? blackPoint)%Z then 0%float
  else if (value >=? whitePoint)%Z then 255%float
  else
    (* Normalize to 0-1 range *)
    let normalized :=
      (of_int (value - blackPoint) / of_int (whitePoint - blackPoint))%float in
    (* Apply gamma (mid-point adjustment) *)
    let gamma := midPoint in
    let adjusted := Math_pow normalized (1 / gamma)%float in
    (* Return to 0-255 range *)
    Math_round (adjusted * 255)%float.

(** [data[i] = applyLevels(data[i], ...)].  When [i] is outside the array
    the read is [undefined] and the store is dropped. *)
Definition levels_channel (levels : LevelsSettings) (data : list Z) (i : nat)
    : list Z :=
  match data !! i with
  | Some v =>
      store data i
        (applyLevels v (blackPoint levels) (midPoint levels) (whitePoint levels))
  | None => data
  end.

(** One iteration of the loop [for (i = 0; i < data.length; i += 4)]:
    R, G and B are rewritten, alpha is skipped. *)
Definition levels_pixel (levels : LevelsSettings) (data : list Z) (k : nat)
    : list Z :=
  let i := 4 * k in
  let data := levels_channel levels data i in
  let data := levels_channel levels data (i + 1) in
  levels_channel levels data (i + 2).

Definition levels_data (levels : LevelsSettings) (data : list Z) : list Z :=
  fold_left (levels_pixel levels) (seq 0 ((length data + 3) / 4)) data.

(** The contents of the image after [applyLevelsToImageData]; the function
    works in place, see [applyLevelsToImageData] on the heap below. *)
Definition levels_image (levels : LevelsSettings) (img : ImageData)
    : ImageData :=
  {| width := width img; height := height img;
     data := levels_data levels (data img) |}.

End Levels.

(** ** dithering/algorithms/floydSteinberg.ts *)

(** [color.slice(start, end)] *)
Definition slice (start stop : nat) (s : string) : string :=
  substring start (stop - start) s.

Definition hex_digit (c : ascii) : option Z :=
  let n := Z.of_N (N_of_ascii c) in
  if (48 <=? n)%Z && (n <=? 57)%Z then Some (n - 48)%Z
  else if (65 <=? n)%Z && (n <=? 70)%Z then Some (n - 55)%Z
  else if (97 <=? n)%Z && (n <=? 102)%Z then Some (n - 87)%Z
  else None.

Definition is_white_space (c : ascii) : bool :=
  let n := N_of_ascii c in
  ((9 <=? n)%N && (n <=? 13)%N) || (n =? 32)%N.

Fixpoint trim_start (s : string) : string :=
  match s with
  | String c s' => if is_white_space c then trim_start s' else s
  | EmptyString => s
  end.

(** Value of the longest prefix of hexadecimal digits. *)
Fixpoint digits16 (s : string) (acc : Z) : Z :=
  match s with
  | String c s' =>
      match hex_digit c with
      | Some d => digits16 s' (16 * acc + d)%Z
      | None => acc
      end
  | EmptyString => acc
  end.

(** [parseInt(s, 16)]: leading white space, a sign and a [0x] prefix are
    skipped, then the longest prefix of hexadecimal digits is read; [None]
    is NaN (no digit). *)
Definition parseInt16 (s : string) : option Z :=
  let s := trim_start s in
  let sign :=
    match s with
    | String c _ => if (c =? "-")%char then (-1)%Z else 1%Z
    | EmptyString => 1%Z
    end in
  let s :=
    match s with
    | String c s' => if (c =? "-")%char || (c =? "+")%char then s' else s
    | EmptyString => s
    end in
  let s :=
    match s with
    | String c (String x s') =>
        if (c =? "0")%char && ((x =? "x")%char || (x =? "X")%char)
        then s' else s
    | _ => s
    end in
  match s with
  | String c _ =>
      match hex_digit c with
      | Some _ => Some (sign * digits16 s 0)%Z
      | None => None
      end
  | EmptyString => None
  end.

Definition rgb : Type := Z * Z * Z.

(** The three channels of a palette entry, when all of them parse. *)
Definition parse_color (color : string) : option rgb :=
  match parseInt16 (slice 1 3 color), parseInt16 (slice 3 5 color),
        parseInt16 (slice 5 7 color) with
  | Some pr, Some pg, Some pb => Some (pr, pg, pb)
  | _, _, _ => None
  end.

(** Sum of the squared channel differences (an integer). *)
Definition dist2 (r g b : Z) (p : rgb) : Z :=
  let '(pr, pg, pb) := p in
  ((r - pr) ^ 2 + (g - pg) ^ 2 + (b - pb) ^ 2)%Z.

(** Body of the loop over the palette.  When a channel does not parse the
    distance is NaN, [distance < minDistance] is false and the entry is
    skipped. *)
Definition closest_step (r g b : Z) (st : number * rgb) (color : string)
    : number * rgb :=
  let '(minDistance, closest) := st in
  match parse_color color with
  | Some p =>
      let distance := PrimFloat.sqrt (of_int (dist2 r g b p)) in
      if (distance <? minDistance)%float then (distance, p) else st
  | None => st
  end.

Definition findClosestColor (r g b : Z) (palette : list string) : rgb :=
  snd (fold_left (closest_step r g b) palette
         (infinity, (0, 0, 0)%Z)).

(** The number written to a neighbour channel:
    [Math.max(0, Math.min(255, current + err * weight / 16))]. *)
Definition diffusion_value (current err weight : Z) : number :=
  Math_max 0%float
    (Math_min 255%float (of_int current + of_int (err * weight) / 16)%float).

(** The three channel updates of one neighbour, in source order. *)
Definition diffuse (outputData : list Z) (nIdx : nat) (errR errG errB : Z)
    (weight : Z) : list Z :=
  let outputData :=
    store outputData nIdx (diffusion_value (get outputData nIdx) errR weight) in
  let outputData :=
    store outputData (nIdx + 1)
      (diffusion_value (get outputData (nIdx + 1)) errG weight) in
  store outputData (nIdx + 2)
    (diffusion_value (get outputData (nIdx + 2)) errB weight).

(** Body of the two nested loops, at pixel (x, y). *)
Definition fs_pixel (width height : nat) (palette : list string)
    (outputData : list Z) (y x : nat) : list Z :=
  let idx := pixel_index width x y in
  let oldR := get outputData idx in
  let oldG := get outputData (idx + 1) in
  let oldB := get outputData (idx + 2) in
  (* Find closest palette color *)
  let '(newR, newG, newB) := findClosestColor oldR oldG oldB palette in
  (* Set new color *)
  let outputData := store_int outputData idx newR in
  let outputData := store_int outputData (idx + 1) newG in
  let outputData := store_int outputData (idx + 2) newB in
  (* Calculate error *)
  let errR := (oldR - newR)%Z in
  let errG := (oldG - newG)%Z in
  let errB := (oldB - newB)%Z in
  (* Right pixel (x+1, y) *)
  let outputData :=
    if x + 1 <? width
    then diffuse outputData (pixel_index width (x + 1) y) errR errG errB 7
    else outputData in
  (* Bottom-left pixel (x-1, y+1) *)
  let outputData :=
    if (0 <? x) && (y + 1 <? height)
    then diffuse outputData (pixel_index width (x - 1) (y + 1)) errR errG errB 3
    else outputData in
  (* Bottom pixel (x, y+1) *)
  let outputData :=
    if y + 1 <? height
    then diffuse outputData (pixel_index width x (y + 1)) errR errG errB 5
    else outputData in
  (* Bottom-right pixel (x+1, y+1) *)
  if (x + 1 <? width) && (y + 1 <? height)
  then diffuse outputData (pixel_index width (x + 1) (y + 1)) errR errG errB 1
  else outputData.

Definition fs_row (width height : nat) (palette : list string)
    (outputData : list Z) (y : nat) : list Z :=
  fold_left (fun out x => fs_pixel width height palette out y x)
    (seq 0 width) outputData.

(** [for (i = 0; i < data.length; i++) outputData[i] = data[i]] *)
Definition copy_into (outputData data : list Z) : list Z :=
  fold_left (fun out i => store_int out i (get data i))
    (seq 0 (length data)) outputData.

Definition floydSteinberg (imageData : ImageData) (palette : list string)
    : ImageData :=
  let output := createImageData (width imageData) (height imageData) in
  let outputData := copy_into (data output) (data imageData) in
  let outputData :=
    fold_left (fs_row (width imageData) (height imageData) palette)
      (seq 0 (height imageData)) outputData in
  {| width := width output; height := height output; data := outputData |}.

(** ** workers/dithering.worker.ts *)

Inductive WorkerResponse :=
  | DITHER_COMPLETE (imageData : ImageData)
  | ERROR (error : string).

(** The message handler; [None] when the message is not a [DITHER] request
    and nothing is posted.  The timing field of the response is left out. *)
Definition onmessage (type : string) (imageData : ImageData)
    (algorithm : string) (palette : list string) : option WorkerResponse :=
  if String.eqb type "DITHER" then
    if String.eqb algorithm "floyd-steinberg"
    then Some (DITHER_COMPLETE (floydSteinberg imageData palette))
    else Some (ERROR ("Unknown algorithm: " ++ algorithm))
  else None.

(** ** utils/displayCalculator.ts *)

Module Geometry.







End Geometry.

(** ** The heap of image objects

    [ImageData] objects are mutable and shared by reference: the cache, the
    levels stage and the ditherer may hold the same object.  The heap is an
    arena of objects; a reference is an index into it, and allocation
    appends. *)

Abbreviation ref := nat (only parsing).
Abbreviation heap := (list ImageData) (only parsing).

Definition alloc (h : heap) (img : ImageData) : heap * ref :=
  (h ++ [img], length h).

Section Pipeline.

Variable Math_pow : number -> number -> number.

(** [applyLevelsToImageData] rewrites the array of the object it is given
    and returns that same object. *)
Definition applyLevelsToImageData (h : heap) (imageData : ref)
    (levels : LevelsSettings) : heap * ref :=
  match h !! imageData with
  | Some img => (<[imageData := levels_image Math_pow levels img]> h, imageData)
  | None => (h, imageData)
  end.

(** [floydSteinberg] on the heap: the output is a new object, the input
    object is only read. *)
Definition floydSteinberg_heap (h : heap) (imageData : ref)
    (palette : list string) : heap * ref :=
  match h !! imageData with
  | Some img => alloc h (floydSteinberg img palette)
  | None => (h, imageData)
  end.

(** ** App.tsx: state, [processImage] and the two re-processing effects *)

Record PreviewState := {
  processingScale : Z;
  displayZoom : Z;
  algorithm : AlgorithmType;
  levels : LevelsSettings;
  palette : list string;
  livePreview : bool;
  isProcessing : bool;
  processedImageData : option ref;
  processedSize : option (nat * nat)
}.

Definition initialPreviewState : PreviewState :=
  {| processingScale := 10; displayZoom := 100; algorithm := floyd_steinberg;
     levels := DEFAULT_LEVELS; palette := DEFAULT_PALETTE; livePreview := true;
     isProcessing := false; processedImageData := None;
     processedSize := None |}.

(** A pending [setTimeout]: the time it is due and the render whose
    [processImage] closure it calls. *)
Record Timer := { due : nat; closure : PreviewState }.

Record App := {
  previewState : PreviewState;
  cachedRawImageRef : option ref;
  objects : heap;
  clock : nat;                       (* milliseconds *)
  settingsTimer : option Timer;      (* effect on algorithm, levels, palette *)
  scaleTimer : option Timer          (* effect on processingScale *)
}.

Definition initialApp : App :=
  {| previewState := initialPreviewState; cachedRawImageRef := None;
     objects := []; clock := 0; settingsTimer := None; scaleTimer := None |}.

(** The host: [getCompositeImageData(scale)] at a given time returns the
    pixels of the document or throws ([None]). *)
Variable getCompositeImageData : nat -> Z -> option ImageData.

(** Where a run took its raw pixels from. *)
Inductive Source :=
  | UsedCache (buffer : ref)
  | Captured (scale : Z) (buffer : ref)
  | CaptureFailed (scale : Z).

(** What a run of [processImage] did: the source of its raw pixels and the
    value of [processingScale] in the state when it ran. *)
Record Run := { source : Source; scaleAtRun : Z }.

Definition set_isProcessing (b : bool) (p : PreviewState) : PreviewState :=
  {| processingScale := processingScale p; displayZoom := displayZoom p;
     algorithm := algorithm p; levels := levels p; palette := palette p;
     livePreview := livePreview p; isProcessing := b;
     processedImageData := processedImageData p;
     processedSize := processedSize p |}.

Definition set_processed (r : ref) (dims : nat * nat) (p : PreviewState)
    : PreviewState :=
  {| processingScale := processingScale p; displayZoom := displayZoom p;
     algorithm := algorithm p; levels := levels p; palette := palette p;
     livePreview := livePreview p; isProcessing := false;
     processedImageData := Some r; processedSize := Some dims |}.

Definition with_state (a : App) (p : PreviewState) : App :=
  {| previewState := p; cachedRawImageRef := cachedRawImageRef a;
     objects := objects a; clock := clock a;
     settingsTimer := settingsTimer a; scaleTimer := scaleTimer a |}.

Definition with_cache (a : App) (c : option ref) (h : heap) : App :=
  {| previewState := previewState a; cachedRawImageRef := c;
     objects := h; clock := clock a;
     settingsTimer := settingsTimer a; scaleTimer := scaleTimer a |}.

(** Levels, then dithering, then the state update, on the raw object. *)
Definition process_raw (ps : PreviewState) (a : App) (rawImageData : ref)
    : App :=
  let '(h, leveled) := applyLevelsToImageData (objects a) rawImageData (levels ps) in
  let '(h, dithered) := floydSteinberg_heap h leveled (palette ps) in
  let dims :=
    match h !! dithered with
    | Some img => (width img, height img)
    | None => (0, 0)
    end in
  with_state (with_cache a (cachedRawImageRef a) h)
    (set_processed dithered dims (previewState a)).

(** [processImage(useCache)], called through the closure of the render
    whose state was [ps].  The capture is awaited inside the run; the run
    is one step of the model. *)
Definition processImage (ps : PreviewState) (useCache : bool) (a : App)
    : App * Run :=
  let a := with_state a (set_isProcessing true (previewState a)) in
  let scaleNow := processingScale (previewState a) in
  match (if useCache then cachedRawImageRef a else None) with
  | Some rawImageData =>
      (* Using cached image data *)
      (process_raw ps a rawImageData,
       {| source := UsedCache rawImageData; scaleAtRun := scaleNow |})
  | None =>
      match getCompositeImageData (clock a) (processingScale ps) with
      | Some img =>
          let '(h, rawImageData) := alloc (objects a) img in
          (* Cache for future live adjustments *)
          let a := with_cache a (Some rawImageData) h in
          (process_raw ps a rawImageData,
           {| source := Captured (processingScale ps) rawImageData;
              scaleAtRun := scaleNow |})
      | None =>
          (with_state a (set_isProcessing false (previewState a)),
           {| source := CaptureFailed (processingScale ps);
              scaleAtRun := scaleNow |})
      end
  end.

Definition with_timers (a : App) (st sc : option Timer) : App :=
  {| previewState := previewState a; cachedRawImageRef := cachedRawImageRef a;
     objects := objects a; clock := clock a;
     settingsTimer := st; scaleTimer := sc |}.

Definition with_clock (a : App) (t : nat) : App :=
  {| previewState := previewState a; cachedRawImageRef := cachedRawImageRef a;
     objects := objects a; clock := t;
     settingsTimer := settingsTimer a; scaleTimer := scaleTimer a |}.

Definition cache_present (a : App) : bool :=
  match cachedRawImageRef a with Some _ => true | None => false end.

(** Effect on [algorithm, levels, palette]: the clean-up of the previous
    run clears its timer; with live preview on and a cached raw image, a
    run from the cache is scheduled in 300 ms. *)
Definition settings_effect (a : App) : App :=
  let ps := previewState a in
  with_timers a
    (if livePreview ps && cache_present a
     then Some {| due := clock a + 300; closure := ps |} else None)
    (scaleTimer a).

(** Effect on [processingScale]: same, with a delay of 500 ms; the
    scheduled callback clears the cache and captures again. *)
Definition scale_effect (a : App) : App :=
  let ps := previewState a in
  with_timers a (settingsTimer a)
    (if livePreview ps && cache_present a
     then Some {| due := clock a + 500; closure := ps |} else None).

Definition set_processingScale (v : Z) (p : PreviewState) : PreviewState :=
  {| processingScale := v; displayZoom := displayZoom p;
     algorithm := algorithm p; levels := levels p; palette := palette p;
     livePreview := livePreview p; isProcessing := isProcessing p;
     processedImageData := processedImageData p;
     processedSize := processedSize p |}.

Definition set_displayZoom (v : Z) (p : PreviewState) : PreviewState :=
  {| processingScale := processingScale p; displayZoom := v;
     algorithm := algorithm p; levels := levels p; palette := palette p;
     livePreview := livePreview p; isProcessing := isProcessing p;
     processedImageData := processedImageData p;
     processedSize := processedSize p |}.

Definition set_algorithm (v : AlgorithmType) (p : PreviewState) : PreviewState :=
  {| processingScale := processingScale p; displayZoom := displayZoom p;
     algorithm := v; levels := levels p; palette := palette p;
     livePreview := livePreview p; isProcessing := isProcessing p;
     processedImageData := processedImageData p;
     processedSize := processedSize p |}.

Definition set_levels (v : LevelsSettings) (p : PreviewState) : PreviewState :=
  {| processingScale := processingScale p; displayZoom := displayZoom p;
     algorithm := algorithm p; levels := v; palette := palette p;
     livePreview := livePreview p; isProcessing := isProcessing p;
     processedImageData := processedImageData p;
     processedSize := processedSize p |}.

(** The deps of an effect are compared by identity: a number or a string
    that keeps its value does not re-run the effect, a fresh [levels]
    object always does. *)
Definition handleProcessingScaleChange (value : Z) (a : App) : App :=
  let changed := negb (value =? processingScale (previewState a))%Z in
  let a := with_state a (set_processingScale value (previewState a)) in
  if changed then scale_effect a else a.

Definition handleDisplayZoomChange (value : Z) (a : App) : App :=
  with_state a (set_displayZoom value (previewState a)).

Definition algorithm_tag (x : AlgorithmType) : nat :=
  match x with
  | floyd_steinberg => 0 | atkinson => 1 | ordered => 2
  | sierra => 3 | stucki => 4 | burkes => 5
  end.

Definition handleAlgorithmChange (value : AlgorithmType) (a : App) : App :=
  let changed :=
    negb (algorithm_tag value =? algorithm_tag (algorithm (previewState a))) in
  let a := with_state a (set_algorithm value (previewState a)) in
  if changed then settings_effect a else a.

Inductive LevelsChange :=
  | SetBlackPoint (value : Z)
  | SetMidPoint (value : number)
  | SetWhitePoint (value : Z).

Definition handleLevelsChange (c : LevelsChange) (a : App) : App :=
  let l := levels (previewState a) in
  let l' :=
    match c with
    | SetBlackPoint v =>
        {| blackPoint := v; midPoint := midPoint l; whitePoint := whitePoint l |}
    | SetMidPoint v =>
        {| blackPoint := blackPoint l; midPoint := v; whitePoint := whitePoint l |}
    | SetWhitePoint v =>
        {| blackPoint := blackPoint l; midPoint := midPoint l; whitePoint := v |}
    end in
  settings_effect (with_state a (set_levels l' (previewState a))).

(** The Process button, disabled while a run is in progress. *)
Definition clickProcess (a : App) : App * list Run :=
  if isProcessing (previewState a) then (a, [])
  else let '(a, r) := processImage (previewState a) false a in (a, [r]).

(** The callback of the settings timer: [processImage(true)]. *)
Definition fire_settings (t : Timer) (a : App) : App * list Run :=
  let a := with_clock (with_timers a None (scaleTimer a)) (due t) in
  let '(a, r) := processImage (closure t) true a in (a, [r]).

(** The callback of the scale timer: clear the cache, then
    [processImage(false)]. *)
Definition fire_scale (t : Timer) (a : App) : App * list Run :=
  let a := with_clock (with_timers a (settingsTimer a) None) (due t) in
  let a := with_cache a None (objects a) in
  let '(a, r) := processImage (closure t) false a in (a, [r]).

(** Fires the pending timer that is due first, if it is due by [deadline].
    Two timers due at the same time fire in the order they were set: the
    scale timer, whose delay is the longer one, was set first. *)
Definition fire_next (deadline : nat) (a : App) : App * list Run :=
  match settingsTimer a, scaleTimer a with
  | Some ts, Some tc =>
      if due tc <=? due ts
      then (if due tc <=? deadline then fire_scale tc a else (a, []))
      else (if due ts <=? deadline then fire_settings ts a else (a, []))
  | Some ts, None => if due ts <=? deadline then fire_settings ts a else (a, [])
  | None, Some tc => if due tc <=? deadline then fire_scale tc a else (a, [])
  | None, None => (a, [])
  end.

(** Time passes: the timers that come due fire in order.  A callback sets
    no timer, so two rounds reach every pending timer. *)
Definition elapse (ms : nat) (a : App) : App * list Run :=
  let deadline := clock a + ms in
  let '(a, r1) := fire_next deadline a in
  let '(a, r2) := fire_next deadline a in
  (with_clock a deadline, r1 ++ r2).

Inductive Event :=
  | ChangeProcessingScale (value : Z)
  | ChangeDisplayZoom (value : Z)
  | ChangeAlgorithm (value : AlgorithmType)
  | ChangeLevels (c : LevelsChange)
  | ClickProcess
  | Elapse (ms : nat).

Definition step (a : App) (e : Event) : App * list Run :=
  match e with
  | ChangeProcessingScale v => (handleProcessingScaleChange v a, [])
  | ChangeDisplayZoom v => (handleDisplayZoomChange v a, [])
  | ChangeAlgorithm v => (handleAlgorithmChange v a, [])
  | ChangeLevels c => (handleLevelsChange c a, [])
  | ClickProcess => clickProcess a
  | Elapse ms => elapse ms a
  end.

Fixpoint run_events (a : App) (es : list Event) : App * list Run :=
  match es with
  | [] => (a, [])
  | e :: es' =>
      let '(a, r) := step a e in
      let '(a, rs) := run_events a es' in
      (a, r ++ rs)
  end.

End Pipeline.

(** The two pixel stages of [processImage] on the contents of an image. *)
Definition pipeline (Math_pow : number -> number -> number)
    (levels : LevelsSettings) (palette : list string) (img : ImageData)
    : ImageData :=
  floydSteinberg (levels_image Math_pow levels img) palette.

(** The RGBA value of pixel (x, y). *)
Definition pixel_at (img : ImageData) (x y : nat) : Z * Z * Z * Z :=
  let idx := pixel_index (width img) x y in
  (get (data img) idx, get (data img) (idx + 1),
   get (data img) (idx + 2), get (data img) (idx + 3)).

(** The 4x4 mid-gray source of the end-to-end scenario. *)
Definition gray4 : ImageData :=
  {| width := 4; height := 4;
     data := concat (replicate 16 [128; 128; 128; 255]%Z) |}.

(** ** Statement vocabulary for the preview geometry *)




Fixpoint all_upto (f : Z -> bool) (n : nat) : bool :=
  match n with
  | O => f 0%Z
  | S n' => f (Z.of_nat n) && all_upto f n'
  end.


(** ** Statement vocabulary for the palette matcher *)

Definition is_hex_digit (c : ascii) : bool :=
  match hex_digit c with Some _ => true | None => false end.

(** A palette entry of the documented form [#RRGGBB]. *)
Definition is_hex_color (s : string) : bool :=
  match s with
  | String h (String c1 (String c2 (String c3 (String c4 (String c5
      (String c6 EmptyString)))))) =>
      (h =? "#")%char && is_hex_digit c1 && is_hex_digit c2 && is_hex_digit c3
      && is_hex_digit c4 && is_hex_digit c5 && is_hex_digit c6
  | _ => false
  end.

(** [Math.sqrt] of an integer. *)
Definition sqrt_of (n : Z) : number := PrimFloat.sqrt (of_int n).

(** [Math.sqrt] is strictly increasing along [n, n + 1, ..., n + k], and
    the last value is below [Infinity]. *)
Fixpoint sqrt_chain (k : nat) (n : Z) : bool :=
  match k with
  | O => (sqrt_of n <? infinity)%float
  | S k' => (sqrt_of n <? sqrt_of (n + 1))%float && sqrt_chain k' (n + 1)
  end.

(** The largest squared distance between two colours: 3 * 255^2. *)
Definition max_dist2 : Z := 195075.

(** [p] is the colour of entry [i] of [seen], no entry of [seen] is nearer
    to (r, g, b), and every earlier entry is strictly farther. *)
Definition first_nearest (r g b : Z) (seen : list string) (i : nat) (p : rgb)
    : Prop :=
  (exists c, seen !! i = Some c /\ parse_color c = Some p) /\
  (forall j c' p', seen !! j = Some c' -> parse_color c' = Some p' ->
     (dist2 r g b p <= dist2 r g b p')%Z) /\
  (forall j c' p', j < i -> seen !! j = Some c' -> parse_color c' = Some p' ->
     (dist2 r g b p < dist2 r g b p')%Z).

(** State of the scan of the palette after the entries [seen]. *)
Definition scan_invariant (r g b : Z) (seen : list string) (st : number * rgb)
    : Prop :=
  (seen = [] /\ st = (infinity, (0, 0, 0)%Z)) \/
  (exists i, first_nearest r g b seen i (snd st) /\
             fst st = sqrt_of (dist2 r g b (snd st))).

(** ** Statement vocabulary for the ditherer *)

(** The byte a neighbour channel holds after a diffusion write. *)
Definition diffused (current err weight : Z) : Z :=
  ToUint8Clamp (diffusion_value current err weight).

(** The pixels in the order of the two nested loops: top to bottom, and
    left to right within a row. *)
Definition raster (width height : nat) : list (nat * nat) :=
  flat_map (fun y => map (fun x => (x, y)) (seq 0 width)) (seq 0 height).

(** R, G and B of pixel (x, y) in an array. *)
Definition rgb_at (width : nat) (a : list Z) (x y : nat) : rgb :=
  let idx := pixel_index width x y in
  (get a idx, get a (idx + 1), get a (idx + 2)).

Definition channel (p : rgb) (c : nat) : Z :=
  match c with
  | 0 => fst (fst p)
  | 1 => snd (fst p)
  | _ => snd p
  end.

(** The Floyd-Steinberg kernel: the weight (over 16) with which the error
    of pixel (x, y) reaches pixel (px, py), if it does. *)
Definition kernel (x y px py : nat) : option Z :=
  if (px =? x + 1) && (py =? y) then Some 7%Z          (* right *)
  else if (px + 1 =? x) && (py =? y + 1) then Some 3%Z  (* bottom-left *)
  else if (px =? x) && (py =? y + 1) then Some 5%Z      (* bottom *)
  else if (px =? x + 1) && (py =? y + 1) then Some 1%Z  (* bottom-right *)
  else None.

(** Channel [c] of pixel (px, py) after the visit of pixel (x, y), stated
    pixel by pixel: the visited pixel takes the palette colour, a kernel
    neighbour takes the clamped sum of its value and its share of the
    error, every other pixel and every alpha channel keeps its value. *)
Definition fs_pixel_spec (width : nat) (palette : list string)
    (outputData : list Z) (y x : nat) (px py c : nat) : Z :=
  let old := rgb_at width outputData x y in
  let new := findClosestColor (fst (fst old)) (snd (fst old)) (snd old) palette in
  let current := get outputData (pixel_index width px py + c) in
  if c =? 3 then current
  else if (px =? x) && (py =? y) then clamp_byte (channel new c)
  else
    match kernel x y px py with
    | Some weight => diffused current (channel old c - channel new c) weight
    | None => current
    end.

(** One iteration of the nested loops, at the pixel [p] = (x, y). *)
Definition fs_visit (width height : nat) (palette : list string)
    (outputData : list Z) (p : nat * nat) : list Z :=
  fs_pixel width height palette outputData (snd p) (fst p).

(** A colour as the clamped array stores it. *)
Definition clamp_rgb (p : rgb) : rgb :=
  (clamp_byte (fst (fst p)), clamp_byte (snd (fst p)), clamp_byte (snd p)).

(** Every element is a byte. *)
Definition bytes (a : list Z) : Prop := Forall (fun v => 0 <= v <= 255)%Z a.

(** A 1x1 image, used in examples. *)
Definition pixel1 (r g b a : Z) : ImageData :=
  {| width := 1; height := 1; data := [r; g; b; a] |}.

(** A host whose document always reads as the image [img]. *)
Definition constant_host (img : ImageData) : nat -> Z -> option ImageData :=
  fun _ _ => Some img.

(** ** Statement vocabulary for the levels stage *)

(** The byte a channel holds after the levels stage. *)
Definition leveled (Math_pow : number -> number -> number)
    (levels : LevelsSettings) (v : Z) : Z :=
  ToUint8Clamp
    (applyLevels Math_pow v (blackPoint levels) (midPoint levels)
       (whitePoint levels)).

(** The default curve on a byte, once [Math.pow(x, 1)] is [x]. *)
Definition default_curve_ok (v : Z) : bool :=
  (ToUint8Clamp (Math_round (of_int (v - 0) / of_int (255 - 0) * 255)%float)
   =? v)%Z.

(** ** Statement vocabulary for the extra properties of the ditherer *)


(** A diffusion write of a zero error leaves the byte [v] as it is. *)
Definition diffused_zero_ok (v : Z) : bool := (diffused v 0 1 =? v)%Z.

(** Every pixel of the array is the colour of some palette entry. *)
Definition in_palette (width height : nat) (palette : list string)
    (a : list Z) : Prop :=
  forall x y, x < width -> y < height ->
    exists c, c ∈ palette /\ parse_color c = Some (rgb_at width a x y).

(** ** utils/imageDataHelper.ts and core/documentValidator.ts *)

(** [target.set(source)] of a typed array: a [RangeError] ([None]) when the
    source is longer than the target, otherwise the source is copied to the
    front of the target. *)
Definition typed_array_set (target source : list Z) : option (list Z) :=
  if length target <? length source then None
  else Some (map clamp_byte source ++ drop (length source) target).

Definition cloneImageData (imageData : ImageData) : option ImageData :=
  let clone := createImageData (width imageData) (height imageData) in
  match typed_array_set (data clone) (data imageData) with
  | Some d =>
      Some {| width := width clone; height := height clone; data := d |}
  | None => None
  end.

(** One iteration of the loop that adds an opaque alpha channel to RGB
    data. *)
Definition add_alpha (pixelData : list Z) (data : list Z) (i : nat) : list Z :=
  let data := store_int data (i * 4 + 0) (get pixelData (i * 3 + 0)) in
  let data := store_int data (i * 4 + 1) (get pixelData (i * 3 + 1)) in
  let data := store_int data (i * 4 + 2) (get pixelData (i * 3 + 2)) in
  store_int data (i * 4 + 3) 255.

(** The end of [getCompositeImageData]: the bytes the host returned become
    an [ImageData] of the target size; [None] is the thrown
    "Invalid pixel data" error. *)
Definition imageData_of_pixels (targetWidth targetHeight : nat)
    (pixelData : list Z) : option ImageData :=
  let imageData := createImageData targetWidth targetHeight in
  let expectedRGBA := targetWidth * targetHeight * 4 in
  let expectedRGB := targetWidth * targetHeight * 3 in
  if length pixelData =? expectedRGBA then
    (* RGBA data - copy directly *)
    match typed_array_set (data imageData) pixelData with
    | Some d =>
        Some {| width := targetWidth; height := targetHeight; data := d |}
    | None => None
    end
  else if length pixelData =? expectedRGB then
    (* RGB data without alpha - add alpha channel *)
    Some {| width := targetWidth; height := targetHeight;
            data := fold_left (add_alpha pixelData)
                      (seq 0 (targetWidth * targetHeight)) (data imageData) |}
  else None.

Module DocumentValidator.

(** The fields [validateDocument] reads of the host's document object. *)
Record Document := {
  doc_width : Z; doc_height : Z; doc_mode : string; doc_bitsPerChannel : Z
}.

Record DocumentInfo := {
  width : Z; height : Z; mode : string; bitsPerChannel : Z;
  isValid : bool; errorMessage : option string
}.

Definition validateDocument (doc : Document) : DocumentInfo :=
  let info (valid : bool) (msg : option string) :=
    {| width := doc_width doc; height := doc_height doc; mode := doc_mode doc;
       bitsPerChannel := doc_bitsPerChannel doc;
       isValid := valid; errorMessage := msg |} in
  (* Check if RGB mode *)
  if negb (String.eqb (doc_mode doc) "RGB") then
    info false
      (Some "Document must be in RGB mode. Please convert via Image > Mode > RGB Color"%string)
  (* Check if 8-bit *)
  else if negb (doc_bitsPerChannel doc =? 8)%Z then
    info false
      (Some "Document must be 8-bit. Please convert via Image > Mode > 8 Bits/Channel"%string)
  else info true None.

End DocumentValidator.

(** ** App.tsx: the render effect *)

(** Side of the square each image pixel is drawn as:
    [Math.max(1, Math.round((displayZoom || 100) / 100))]. *)
Definition pixelSize (displayZoom : Z) : number :=
  let zoom :=
    (of_int (if (displayZoom =? 0)%Z then 100 else displayZoom) / 100)%float in
  Math_max 1%float (Math_round zoom).

(** Width and height given to the canvas element. *)
Definition canvas_dimensions (img : ImageData) (displayZoom : Z)
    : number * number :=
  let pixelSize := pixelSize displayZoom in
  ((of_int (Z.of_nat (width img)) * pixelSize)%float,
   (of_int (Z.of_nat (height img)) * pixelSize)%float).

Definition pixelSize_ok (i : Z) : bool :=
  let z := (50 + i)%Z in
  PrimFloat.Leibniz.eqb (pixelSize z) (if (z <? 150)%Z then 1%float else 2%float).

(** The working buffer after the first [k] visits of the ditherer. *)
Definition after_visits (img : ImageData) (palette : list string) (k : nat)
    : list Z :=
  fold_left (fs_visit (width img) (height img) palette)
    (take k (raster (width img) (height img)))
    (copy_into (replicate (width img * height img * 4) 0%Z) (data img)).

(** * Properties *)

Lemma float_0_neq_255 : 0%float <> 255%float.
Proof.
  intros H. apply (f_equal is_zero) in H. vm_compute in H. discriminate.
Qed.

(** ** Levels *)

Section LevelsFacts.

Variable Math_pow : number -> number -> number.

Lemma applyLevels_low v b m w :
  (v <= b)%Z -> applyLevels Math_pow v b m w = 0%float.
Proof.
  intros H. unfold applyLevels.
  destruct (Z.leb_spec v b); [reflexivity | lia].
Qed.

Lemma applyLevels_high v b m w :
  (b < v)%Z -> (w <= v)%Z -> applyLevels Math_pow v b m w = 255%float.
Proof.
  intros Hb Hw. unfold applyLevels.
  destruct (Z.leb_spec v b); [lia |].
  destruct (Z.geb_spec v w); [reflexivity | lia].
Qed.

Lemma applyLevels_curve v b m w :
  (b < v < w)%Z ->
  applyLevels Math_pow v b m w =
  Math_round (Math_pow (of_int (v - b) / of_int (w - b)) (1 / m) * 255)%float.
Proof.
  intros [Hb Hw]. unfold applyLevels.
  destruct (Z.leb_spec v b); [lia |].
  destruct (Z.geb_spec v w); [lia | reflexivity].
Qed.

End LevelsFacts.

(** C6, as stated, fails: with a degenerate range a value can be both at
    most the black point and at least the white point, and [applyLevels]
    then returns 0, not 255. *)
Lemma applyLevels_clamp_counterexample :
  ~ (forall (Math_pow : number -> number -> number) (v b w : Z) (m : number),
        (0 <= v <= 255)%Z -> (0 <= b <= 255)%Z -> (0 <= w <= 255)%Z ->
        ((v <= b)%Z -> applyLevels Math_pow v b m w = 0%float) /\
        ((v >= w)%Z -> applyLevels Math_pow v b m w = 255%float)).
Proof.
  intros H.
  destruct (H (fun x _ => x) 100%Z 150%Z 50%Z 1%float) as [_ H255]; try lia.
  apply float_0_neq_255. rewrite <- H255 by lia. reflexivity.
Qed.

(** C6 (amended): [applyLevels] returns 0 whenever the value is at most the
    black point, and returns 255 whenever the value is at least the white
    point and above the black point. *)
Theorem applyLevels_clamp (Math_pow : number -> number -> number)
    (v b w : Z) (m : number) :
  ((v <= b)%Z -> applyLevels Math_pow v b m w = 0%float) /\
  ((v >= w)%Z -> (b < v)%Z -> applyLevels Math_pow v b m w = 255%float).
Proof.
  split.
  - apply applyLevels_low.
  - intros Hw Hb. apply applyLevels_high; lia.
Qed.

Lemma applyLevels_clamp_witness :
  applyLevels (fun x _ => x) 10 20 1%float 200 = 0%float /\
  applyLevels (fun x _ => x) 230 20 1%float 200 = 255%float.
Proof.
  split.
  - apply (proj1 (applyLevels_clamp (fun x _ => x) 10 20 200 1%float)). lia.
  - apply (proj2 (applyLevels_clamp (fun x _ => x) 230 20 200 1%float)); lia.
Defined.



(** ** Preview geometry *)

Lemma all_upto_spec (f : Z -> bool) (n : nat) :
  all_upto f n = true -> forall z, (0 <= z <= Z.of_nat n)%Z -> f z = true.
Proof.
  induction n as [| n IH]; intros Hall z Hz.
  - simpl in Hall. replace z with 0%Z by lia. exact Hall.
  - cbn [all_upto] in Hall. apply andb_prop in Hall as [Hn Hrest].
    destruct (Z.eq_dec z (Z.of_nat (S n))) as [-> | Hne]; [exact Hn |].
    apply IH; [exact Hrest | lia].
Qed.








(** ** The end-to-end scenario: 4x4 mid-gray, default levels, black and
       white palette *)

Section DefaultLevels.

Variable Math_pow : number -> number -> number.

(** Raising to the power 1 returns the base. *)
Hypothesis Math_pow_one : forall x, Math_pow x 1%float = x.

Lemma applyLevels_default_128 :
  applyLevels Math_pow 128 0 1%float 255 = 128%float.
Proof.
  rewrite applyLevels_curve by lia.
  change (1 / 1)%float with 1%float.
  rewrite Math_pow_one. vm_compute. reflexivity.
Qed.

Lemma levels_channel_128 (d : list Z) (i : nat) :
  d !! i = Some 128%Z -> levels_channel Math_pow DEFAULT_LEVELS d i = d.
Proof.
  intros Hi. unfold levels_channel. rewrite Hi.
  cbn [blackPoint midPoint whitePoint DEFAULT_LEVELS].
  rewrite applyLevels_default_128. unfold store.
  change (ToUint8Clamp 128%float) with 128%Z.
  now apply list_insert_id.
Qed.

Lemma levels_pixel_128 (d : list Z) (k : nat) :
  d !! (4 * k) = Some 128%Z -> d !! (4 * k + 1) = Some 128%Z ->
  d !! (4 * k + 2) = Some 128%Z ->
  levels_pixel Math_pow DEFAULT_LEVELS d k = d.
Proof.
  intros H0 H1 H2. unfold levels_pixel.
  rewrite (levels_channel_128 d (4 * k)) by exact H0.
  rewrite (levels_channel_128 d (4 * k + 1)) by exact H1.
  now apply levels_channel_128.
Qed.

Lemma fold_left_fixed {A B} (f : A -> B -> A) (a : A) (l : list B) :
  Forall (fun b => f a b = a) l -> fold_left f l a = a.
Proof.
  induction 1 as [| b l Hb _ IH]; [reflexivity |].
  cbn [fold_left]. now rewrite Hb.
Qed.

Lemma levels_image_gray4 : levels_image Math_pow DEFAULT_LEVELS gray4 = gray4.
Proof.
  unfold levels_image, levels_data.
  rewrite fold_left_fixed; [reflexivity |].
  change (seq 0 ((length (data gray4) + 3) / 4)) with (seq 0 16).
  repeat (apply Forall_cons; split;
            [apply levels_pixel_128; reflexivity |]).
  apply Forall_nil_2.
Qed.

Lemma pipeline_gray4_data :
  data (pipeline Math_pow DEFAULT_LEVELS DEFAULT_PALETTE gray4) =
  [255; 255; 255; 255;   0;   0;   0; 255; 255; 255; 255; 255;   0;   0;   0; 255;
     0;   0;   0; 255; 255; 255; 255; 255;   0;   0;   0; 255; 255; 255; 255; 255;
   255; 255; 255; 255;   0;   0;   0; 255; 255; 255; 255; 255;   0;   0;   0; 255;
     0;   0;   0; 255; 255; 255; 255; 255;   0;   0;   0; 255; 255; 255; 255; 255]%Z.
Proof.
  unfold pipeline. rewrite levels_image_gray4. vm_compute. reflexivity.
Qed.

End DefaultLevels.

(** C3, as stated, fails: 128 is nearer to 255 than to 0, so the first
    pixel of the output is white, not black. *)
Lemma pipeline_gray4_counterexample :
  ~ (forall Math_pow : number -> number -> number,
        (forall x, Math_pow x 1%float = x) ->
        pixel_at (pipeline Math_pow DEFAULT_LEVELS DEFAULT_PALETTE gray4) 0 0
        = (0, 0, 0, 255)%Z).
Proof.
  intros H. specialize (H (fun x _ => x) (fun x => eq_refl)).
  unfold pixel_at in H.
  rewrite pipeline_gray4_data in H by reflexivity.
  vm_compute in H. discriminate.
Qed.

(** C3 (amended): default levels and Floyd-Steinberg dithering of the 4x4
    buffer whose every pixel is (128,128,128,255), with the palette
    [#000000, #FFFFFF], give a 4x4 output in which every pixel is
    (0,0,0,255) or (255,255,255,255), and the first pixel (0,0) quantizes to
    white (255,255,255). *)
Theorem pipeline_gray4_output (Math_pow : number -> number -> number)
    (Math_pow_one : forall x, Math_pow x 1%float = x) :
  let out := pipeline Math_pow DEFAULT_LEVELS DEFAULT_PALETTE gray4 in
  width out = 4 /\ height out = 4 /\
  (forall x y, x < 4 -> y < 4 ->
     pixel_at out x y = (0, 0, 0, 255)%Z \/
     pixel_at out x y = (255, 255, 255, 255)%Z) /\
  pixel_at out 0 0 = (255, 255, 255, 255)%Z.
Proof.
  cbv zeta. split; [reflexivity |]. split; [reflexivity |].
  assert (Hw : width (pipeline Math_pow DEFAULT_LEVELS DEFAULT_PALETTE gray4) = 4)
    by reflexivity.
  unfold pixel_at. rewrite Hw, (pipeline_gray4_data Math_pow Math_pow_one).
  split.
  - intros x y Hx Hy.
    destruct x as [| [| [| [| x]]]]; try lia;
      destruct y as [| [| [| [| y]]]]; try lia;
      vm_compute; auto.
  - vm_compute. reflexivity.
Qed.

Lemma pipeline_gray4_output_witness :
  pixel_at (pipeline (fun x _ => x) DEFAULT_LEVELS DEFAULT_PALETTE gray4) 0 0
  = (255, 255, 255, 255)%Z.
Proof.
  exact (proj2 (proj2 (proj2
           (pipeline_gray4_output (fun x _ => x) (fun x => eq_refl))))).
Defined.

(** ** Order of doubles *)

Lemma SFltb_trans x y z :
  SFltb x y = true -> SFltb y z = true -> SFltb x z = true.
Proof.
  unfold SFltb, SFcompare.
  destruct x as [[] | [] | | [] m1 e1], y as [[] | [] | | [] m2 e2],
           z as [[] | [] | | [] m3 e3];
    try discriminate; try reflexivity;
    change (Pos.compare_cont Eq) with Pos.compare;
    destruct (Z.compare_spec e1 e2), (Z.compare_spec e2 e3),
             (Z.compare_spec e1 e3);
    try discriminate; try reflexivity; try lia;
    destruct (Pos.compare_spec m1 m2), (Pos.compare_spec m2 m3),
             (Pos.compare_spec m1 m3);
    cbn; try discriminate; try reflexivity; lia.
Qed.

Lemma SFltb_asym x y : SFltb x y = true -> SFltb y x = false.
Proof.
  unfold SFltb, SFcompare.
  destruct x as [[] | [] | | [] m1 e1], y as [[] | [] | | [] m2 e2];
    try discriminate; try reflexivity;
    change (Pos.compare_cont Eq) with Pos.compare;
    destruct (Z.compare_spec e1 e2), (Z.compare_spec e2 e1);
    try discriminate; try reflexivity; try lia;
    destruct (Pos.compare_spec m1 m2), (Pos.compare_spec m2 m1);
    cbn; try discriminate; try reflexivity; lia.
Qed.

Lemma ltb_trans (x y z : number) :
  (x <? y)%float = true -> (y <? z)%float = true -> (x <? z)%float = true.
Proof. rewrite !ltb_spec. apply SFltb_trans. Qed.

Lemma ltb_asym (x y : number) :
  (x <? y)%float = true -> (y <? x)%float = false.
Proof. rewrite !ltb_spec. apply SFltb_asym. Qed.

Lemma ltb_irrefl (x : number) : (x <? x)%float = false.
Proof.
  destruct (x <? x)%float eqn:E; [| reflexivity].
  now rewrite (ltb_asym _ _ E) in E.
Qed.

Lemma sqrt_chain_spec (k : nat) (n : Z) :
  sqrt_chain k n = true ->
  (forall i, (n <= i < n + Z.of_nat k)%Z ->
             (sqrt_of i <? sqrt_of (i + 1))%float = true) /\
  (sqrt_of (n + Z.of_nat k) <? infinity)%float = true.
Proof.
  revert n. induction k as [| k IH]; intros n Hc.
  - cbn [sqrt_chain] in Hc. split; [intros i Hi; lia |].
    now replace (n + Z.of_nat 0)%Z with n by lia.
  - cbn [sqrt_chain] in Hc. apply andb_prop in Hc as [Hstep Hrest].
    destruct (IH _ Hrest) as [Hsteps Hlast]. split.
    + intros i Hi. destruct (Z.eq_dec i n) as [-> | Hne]; [exact Hstep |].
      apply Hsteps. lia.
    + now replace (n + Z.of_nat (S k))%Z with (n + 1 + Z.of_nat k)%Z by lia.
Qed.

Lemma sqrt_chain_all : sqrt_chain (Z.to_nat max_dist2) 0 = true.
Proof. vm_compute. reflexivity. Qed.

Lemma sqrt_of_step (i : Z) :
  (0 <= i < max_dist2)%Z -> (sqrt_of i <? sqrt_of (i + 1))%float = true.
Proof.
  intros Hi. apply (proj1 (sqrt_chain_spec _ _ sqrt_chain_all)).
  unfold max_dist2 in *. lia.
Qed.

Lemma sqrt_of_lt (a b : Z) :
  (0 <= a)%Z -> (a < b)%Z -> (b <= max_dist2)%Z ->
  (sqrt_of a <? sqrt_of b)%float = true.
Proof.
  intros Ha Hab Hb.
  assert (Hgen : forall k : nat, (a + 1 + Z.of_nat k <= max_dist2)%Z ->
            (sqrt_of a <? sqrt_of (a + 1 + Z.of_nat k))%float = true).
  { induction k as [| k IH]; intros Hk.
    - replace (a + 1 + Z.of_nat 0)%Z with (a + 1)%Z by lia.
      apply sqrt_of_step. lia.
    - apply ltb_trans with (sqrt_of (a + 1 + Z.of_nat k)).
      + apply IH. lia.
      + replace (a + 1 + Z.of_nat (S k))%Z with (a + 1 + Z.of_nat k + 1)%Z by lia.
        apply sqrt_of_step. lia. }
  replace b with (a + 1 + Z.of_nat (Z.to_nat (b - a - 1)))%Z by lia.
  apply Hgen. lia.
Qed.

Lemma sqrt_of_ltb (a b : Z) :
  (0 <= a <= max_dist2)%Z -> (0 <= b <= max_dist2)%Z ->
  (sqrt_of a <? sqrt_of b)%float = (a <? b)%Z.
Proof.
  intros Ha Hb. destruct (Z.ltb_spec a b) as [Hlt | Hge].
  - apply sqrt_of_lt; lia.
  - destruct (Z.eq_dec a b) as [-> | Hne]; [apply ltb_irrefl |].
    apply ltb_asym, sqrt_of_lt; lia.
Qed.

Lemma sqrt_of_finite (a : Z) :
  (0 <= a <= max_dist2)%Z -> (sqrt_of a <? infinity)%float = true.
Proof.
  intros Ha.
  assert (Hlast := proj2 (sqrt_chain_spec _ _ sqrt_chain_all)).
  replace (0 + Z.of_nat (Z.to_nat max_dist2))%Z with max_dist2 in Hlast
    by (unfold max_dist2; lia).
  destruct (Z.eq_dec a max_dist2) as [-> | Hne]; [exact Hlast |].
  apply ltb_trans with (sqrt_of max_dist2); [| exact Hlast].
  apply sqrt_of_lt; lia.
Qed.

(** ** Palette entries *)

Lemma hex_digit_facts (c : ascii) (d : Z) :
  hex_digit c = Some d ->
  (0 <= d < 16)%Z /\ is_white_space c = false /\
  (c =? "-")%char = false /\ (c =? "+")%char = false /\
  (c =? "x")%char = false /\ (c =? "X")%char = false.
Proof.
  destruct c as [[] [] [] [] [] [] [] []]; intros H; cbv in H;
    try discriminate; injection H as <-;
    repeat split; try reflexivity; lia.
Qed.

Lemma parseInt16_pair (a b : ascii) (x y : Z) :
  hex_digit a = Some x -> hex_digit b = Some y ->
  parseInt16 (String a (String b EmptyString)) = Some (16 * x + y)%Z.
Proof.
  intros Ha Hb.
  destruct (hex_digit_facts a x Ha) as (_ & Hws & Hm & Hp & _ & _).
  destruct (hex_digit_facts b y Hb) as (_ & _ & _ & _ & Hx & HX).
  unfold parseInt16. cbn [trim_start]. rewrite Hws. cbv zeta.
  rewrite Hm, Hp. cbn [orb]. rewrite Hx, HX.
  rewrite andb_false_r. rewrite Ha.
  cbn [digits16]. rewrite Ha, Hb. f_equal. lia.
Qed.

Lemma is_hex_digit_value (c : ascii) :
  is_hex_digit c = true -> exists d, hex_digit c = Some d /\ (0 <= d < 16)%Z.
Proof.
  unfold is_hex_digit. destruct (hex_digit c) as [d |] eqn:E; [| discriminate].
  intros _. exists d. split; [reflexivity |].
  now destruct (hex_digit_facts c d E).
Qed.

Lemma parse_color_hex (s : string) :
  is_hex_color s = true ->
  exists pr pg pb, parse_color s = Some (pr, pg, pb) /\
    (0 <= pr <= 255)%Z /\ (0 <= pg <= 255)%Z /\ (0 <= pb <= 255)%Z.
Proof.
  destruct s as [| h [| c1 [| c2 [| c3 [| c4 [| c5 [| c6 [| ? ?]]]]]]]];
    try discriminate.
  cbn [is_hex_color]. intros H.
  repeat (apply andb_prop in H as [H ?]).
  destruct (is_hex_digit_value c1) as (d1 & E1 & ?); [assumption |].
  destruct (is_hex_digit_value c2) as (d2 & E2 & ?); [assumption |].
  destruct (is_hex_digit_value c3) as (d3 & E3 & ?); [assumption |].
  destruct (is_hex_digit_value c4) as (d4 & E4 & ?); [assumption |].
  destruct (is_hex_digit_value c5) as (d5 & E5 & ?); [assumption |].
  destruct (is_hex_digit_value c6) as (d6 & E6 & ?); [assumption |].
  exists (16 * d1 + d2)%Z, (16 * d3 + d4)%Z, (16 * d5 + d6)%Z.
  unfold parse_color, slice. cbn [substring Nat.sub].
  rewrite (parseInt16_pair c1 c2 d1 d2 E1 E2),
          (parseInt16_pair c3 c4 d3 d4 E3 E4),
          (parseInt16_pair c5 c6 d5 d6 E5 E6).
  repeat split; lia.
Qed.

Lemma square_diff_range (a b : Z) :
  (0 <= a <= 255)%Z -> (0 <= b <= 255)%Z ->
  (0 <= (a - b) ^ 2 <= 65025)%Z.
Proof.
  intros Ha Hb. rewrite Z.pow_2_r.
  assert (Hd : (-255 <= a - b <= 255)%Z) by lia.
  revert Hd. generalize (a - b)%Z. intros d Hd. nia.
Qed.

Lemma dist2_range (r g b : Z) (p : rgb) :
  (0 <= r <= 255)%Z -> (0 <= g <= 255)%Z -> (0 <= b <= 255)%Z ->
  (0 <= fst (fst p) <= 255)%Z -> (0 <= snd (fst p) <= 255)%Z ->
  (0 <= snd p <= 255)%Z ->
  (0 <= dist2 r g b p <= max_dist2)%Z.
Proof.
  destruct p as [[pr pg] pb]. cbn [fst snd]. intros Hr Hg Hb Hpr Hpg Hpb.
  unfold dist2, max_dist2.
  pose proof (square_diff_range r pr Hr Hpr).
  pose proof (square_diff_range g pg Hg Hpg).
  pose proof (square_diff_range b pb Hb Hpb). lia.
Qed.

(** ** The palette matcher *)

Section Matcher.

Variables r g b : Z.
Hypothesis Hr : (0 <= r <= 255)%Z.
Hypothesis Hg : (0 <= g <= 255)%Z.
Hypothesis Hb : (0 <= b <= 255)%Z.

Lemma hex_color_dist2 (c : string) :
  is_hex_color c = true ->
  exists p, parse_color c = Some p /\ (0 <= dist2 r g b p <= max_dist2)%Z.
Proof using Hr Hg Hb.
  intros Hc. destruct (parse_color_hex c Hc) as (pr & pg & pb & Hp & ? & ? & ?).
  exists (pr, pg, pb). split; [exact Hp |]. now apply dist2_range.
Qed.

Lemma scan_step (seen : list string) (st : number * rgb) (c : string) :
  Forall (fun c => is_hex_color c = true) seen ->
  is_hex_color c = true ->
  scan_invariant r g b seen st ->
  scan_invariant r g b (seen ++ [c]) (closest_step r g b st c).
Proof using Hr Hg Hb.
  intros Hseen Hc Hinv.
  destruct (hex_color_dist2 c Hc) as (p & Hp & Hd).
  destruct st as [minDistance closest]. unfold closest_step. rewrite Hp.
  change (PrimFloat.sqrt (of_int (dist2 r g b p))) with (sqrt_of (dist2 r g b p)).
  destruct Hinv as [[-> Hst] | (i & (Hat & Hmin & Hfirst) & Hdist)].
  - (* first entry *)
    injection Hst as -> ->. rewrite (sqrt_of_finite _ Hd).
    right. exists 0. cbn [fst snd app]. split; [| reflexivity].
    split; [| split].
    + exists c. split; [reflexivity | exact Hp].
    + intros j c' p' Hj Hp'. apply list_lookup_singleton_Some in Hj as [_ <-].
      rewrite Hp in Hp'. injection Hp' as <-. lia.
    + intros j c' p' Hj. lia.
  - (* a later entry *)
    cbn [fst snd] in *. destruct Hat as (ci & Hi & Hpi).
    assert (Hci : is_hex_color ci = true).
    { exact (Forall_lookup_1 _ _ _ _ Hseen Hi). }
    destruct (hex_color_dist2 ci Hci) as (q & Hq & Hdq).
    rewrite Hpi in Hq. injection Hq as <-.
    rewrite Hdist, sqrt_of_ltb by assumption.
    pose proof (lookup_lt_Some _ _ _ Hi) as Hlen.
    destruct (Z.ltb_spec (dist2 r g b p) (dist2 r g b closest)) as [Hlt | Hge].
    + right. exists (length seen). cbn [fst snd]. split; [| reflexivity].
      split; [| split].
      * exists c. split; [| exact Hp]. now apply list_lookup_middle.
      * intros j c' p' Hj Hp'.
        apply lookup_snoc_Some in Hj as [[_ Hj] | [_ <-]].
        -- specialize (Hmin j c' p' Hj Hp'). lia.
        -- rewrite Hp in Hp'. injection Hp' as <-. lia.
      * intros j c' p' Hlt' Hj Hp'.
        apply lookup_snoc_Some in Hj as [[_ Hj] | [? _]]; [| lia].
        specialize (Hmin j c' p' Hj Hp'). lia.
    + right. exists i. cbn [fst snd]. split; [| reflexivity].
      split; [| split].
      * exists ci. split; [| exact Hpi]. rewrite lookup_app_l; assumption.
      * intros j c' p' Hj Hp'.
        apply lookup_snoc_Some in Hj as [[_ Hj] | [_ <-]].
        -- exact (Hmin j c' p' Hj Hp').
        -- rewrite Hp in Hp'. injection Hp' as <-. lia.
      * intros j c' p' Hlt' Hj Hp'.
        apply lookup_snoc_Some in Hj as [[_ Hj] | [? _]]; [| lia].
        exact (Hfirst j c' p' Hlt' Hj Hp').
Qed.

Lemma scan_all (rest seen : list string) (st : number * rgb) :
  Forall (fun c => is_hex_color c = true) seen ->
  Forall (fun c => is_hex_color c = true) rest ->
  scan_invariant r g b seen st ->
  scan_invariant r g b (seen ++ rest) (fold_left (closest_step r g b) rest st).
Proof using Hr Hg Hb.
  revert seen st. induction rest as [| c rest IH]; intros seen st Hseen Hrest Hinv.
  - now rewrite app_nil_r.
  - apply Forall_cons in Hrest as [Hc Hrest]. cbn [fold_left].
    replace (seen ++ c :: rest) with ((seen ++ [c]) ++ rest)
      by now rewrite <- app_assoc.
    apply IH.
    + apply Forall_app. split; [exact Hseen | now apply Forall_singleton].
    + exact Hrest.
    + now apply scan_step.
Qed.

End Matcher.



(** ** Arrays *)

Lemma get_lookup (a : list Z) (i : nat) :
  i < length a -> a !! i = Some (get a i).
Proof.
  intros Hi. unfold get.
  destruct (lookup_lt_is_Some_2 a i Hi) as [v ->]. reflexivity.
Qed.

Lemma get_insert (a : list Z) (i j : nat) (v : Z) :
  get (<[i := v]> a) j = if decide (i = j /\ i < length a) then v else get a j.
Proof. unfold get. rewrite list_lookup_insert. now case_decide. Qed.

Lemma length_store a i v : length (store a i v) = length a.
Proof. apply length_insert. Qed.

Lemma length_store_int a i v : length (store_int a i v) = length a.
Proof. apply length_insert. Qed.

Lemma length_diffuse a n eR eG eB w : length (diffuse a n eR eG eB w) = length a.
Proof. unfold diffuse. now rewrite !length_store. Qed.

Lemma get_diffuse (a : list Z) (n : nat) (eR eG eB w : Z) (j : nat) :
  n + 2 < length a ->
  get (diffuse a n eR eG eB w) j =
  if decide (j = n) then diffused (get a n) eR w
  else if decide (j = n + 1) then diffused (get a (n + 1)) eG w
  else if decide (j = n + 2) then diffused (get a (n + 2)) eB w
  else get a j.
Proof.
  intros Hn. unfold diffuse, store, diffused.
  rewrite !get_insert, !length_insert.
  repeat case_decide; try lia; reflexivity.
Qed.

Lemma length_fs_pixel w h pal a y x : length (fs_pixel w h pal a y x) = length a.
Proof.
  unfold fs_pixel. destruct (findClosestColor _ _ _ _) as [[nR nG] nB].
  repeat match goal with
         | |- context [if ?b then _ else _] => destruct b
         end;
    now rewrite ?length_diffuse, ?length_store_int.
Qed.

Lemma pixel_index_bound (w h x y : nat) :
  x < w -> y < h -> pixel_index w x y + 3 < w * h * 4.
Proof. intros Hx Hy. unfold pixel_index. nia. Qed.

(** ** One visit of the ditherer *)

Lemma get_diffuse_at (a : list Z) (n : nat) (eR eG eB w : Z) (c : nat) :
  n + 2 < length a -> c < 3 ->
  get (diffuse a n eR eG eB w) (n + c) =
  diffused (get a (n + c)) (channel (eR, eG, eB) c) w.
Proof.
  intros Hn Hc. rewrite get_diffuse by exact Hn.
  destruct c as [| [| [| c]]]; try lia; cbn [channel fst snd];
    repeat case_decide; try lia; repeat f_equal; lia.
Qed.

Lemma get_diffuse_other (a : list Z) (n : nat) (eR eG eB w : Z) (j : nat) :
  n + 2 < length a -> j < n \/ n + 2 < j ->
  get (diffuse a n eR eG eB w) j = get a j.
Proof.
  intros Hn Hj. rewrite get_diffuse by exact Hn.
  repeat case_decide; try lia; reflexivity.
Qed.

Lemma get_store3 (a : list Z) (idx : nat) (vR vG vB : Z) (j : nat) :
  idx + 2 < length a ->
  get (store_int (store_int (store_int a idx vR) (idx + 1) vG) (idx + 2) vB) j =
  if decide (j = idx) then clamp_byte vR
  else if decide (j = idx + 1) then clamp_byte vG
  else if decide (j = idx + 2) then clamp_byte vB
  else get a j.
Proof.
  intros Hn. unfold store_int. rewrite !get_insert, !length_insert.
  repeat case_decide; try lia; reflexivity.
Qed.

Ltac peel_diffuse :=
  first
    [ rewrite get_diffuse_at
        by (rewrite ?length_diffuse, ?length_store_int; lia)
    | rewrite get_diffuse_other
        by (rewrite ?length_diffuse, ?length_store_int;
            unfold pixel_index in *; lia) ].

Ltac decide_guards :=
  repeat match goal with
         | |- context [Nat.ltb ?a ?b] =>
             destruct (Nat.ltb_spec a b); try lia
         | |- context [Nat.eqb ?a ?b] =>
             destruct (Nat.eqb_spec a b); try lia
         end;
  cbn [andb].

Ltac same_reads :=
  repeat first [reflexivity | lia | progress f_equal].

Lemma get_fs_pixel (w h : nat) (pal : list string) (a : list Z)
    (x y px py c : nat) :
  length a = w * h * 4 -> x < w -> y < h -> px < w -> py < h -> c < 4 ->
  get (fs_pixel w h pal a y x) (pixel_index w px py + c) =
  fs_pixel_spec w pal a y x px py c.
Proof.
  intros Hlen Hx Hy Hpx Hpy Hc.
  unfold fs_pixel_spec, fs_pixel, rgb_at, kernel. cbn [fst snd].
  destruct (findClosestColor _ _ _ pal) as [[nR nG] nB].
  pose proof (pixel_index_bound w h x y Hx Hy) as B0.
  pose proof (pixel_index_bound w h px py Hpx Hpy) as BP.
  assert (BR : x + 1 < w -> pixel_index w (x + 1) y + 3 < w * h * 4)
    by (intros; apply pixel_index_bound; lia).
  assert (BL : 0 < x -> y + 1 < h ->
               pixel_index w (x - 1) (y + 1) + 3 < w * h * 4)
    by (intros; apply pixel_index_bound; lia).
  assert (BD : y + 1 < h -> pixel_index w x (y + 1) + 3 < w * h * 4)
    by (intros; apply pixel_index_bound; lia).
  assert (BC : x + 1 < w -> y + 1 < h ->
               pixel_index w (x + 1) (y + 1) + 3 < w * h * 4)
    by (intros; apply pixel_index_bound; lia).
  assert (Hrows : py * w + w <= y * w \/ py = y \/ py = y + 1
                  \/ y * w + 2 * w <= py * w) by nia.
  destruct c as [| [| [| [| c]]]]; try lia; cbn [channel fst snd Nat.eqb].
  all: destruct Hrows as [Hrow | [-> | [-> | Hrow]]].
  all: decide_guards.
  all: try subst px.
  all: try replace px with (x - 1) by lia.
  all: try specialize (BR ltac:(lia)).
  all: try specialize (BD ltac:(lia)).
  all: try specialize (BL ltac:(lia) ltac:(lia)).
  all: try specialize (BC ltac:(lia) ltac:(lia)).
  all: repeat peel_diffuse.
  all: rewrite ?get_store3 by lia.
  all: cbn [channel fst snd].
  all: unfold pixel_index in *.
  all: repeat case_decide; try lia.
  all: same_reads.
Qed.

Lemma lookup_fs_pixel (w h : nat) (pal : list string) (a : list Z)
    (x y px py c : nat) :
  length a = w * h * 4 -> x < w -> y < h -> px < w -> py < h -> c < 4 ->
  fs_pixel w h pal a y x !! (pixel_index w px py + c) =
  Some (fs_pixel_spec w pal a y x px py c).
Proof.
  intros Hlen Hx Hy Hpx Hpy Hc.
  rewrite <- (get_fs_pixel w h pal a x y px py c) by assumption.
  apply get_lookup. rewrite length_fs_pixel, Hlen.
  pose proof (pixel_index_bound w h px py Hpx Hpy). lia.
Qed.

(** ** The scan order *)

Lemma fold_left_flat_map {A B C} (f : A -> C -> A) (g : B -> list C)
    (l : list B) (a : A) :
  fold_left f (flat_map g l) a = fold_left (fun a b => fold_left f (g b) a) l a.
Proof.
  revert a. induction l as [| b l IH]; intros a; [reflexivity |].
  cbn [flat_map fold_left]. now rewrite fold_left_app, IH.
Qed.

Lemma fold_left_map {A B C} (f : A -> C -> A) (g : B -> C) (l : list B) (a : A) :
  fold_left f (map g l) a = fold_left (fun a b => f a (g b)) l a.
Proof.
  revert a. induction l as [| b l IH]; intros a; [reflexivity |].
  cbn [map fold_left]. apply IH.
Qed.

Lemma fold_left_ext_eq {A B} (f g : A -> B -> A) (l : list B) (a : A) :
  (forall a b, f a b = g a b) -> fold_left f l a = fold_left g l a.
Proof.
  intros Hfg. revert a. induction l as [| b l IH]; intros a; [reflexivity |].
  cbn [fold_left]. now rewrite Hfg, IH.
Qed.

Lemma floydSteinberg_raster (imageData : ImageData) (palette : list string) :
  data (floydSteinberg imageData palette) =
  fold_left (fs_visit (width imageData) (height imageData) palette)
    (raster (width imageData) (height imageData))
    (copy_into (replicate (width imageData * height imageData * 4) 0%Z)
       (data imageData)).
Proof.
  unfold floydSteinberg, raster. cbn [data width height createImageData].
  rewrite fold_left_flat_map. apply fold_left_ext_eq. intros a y.
  unfold fs_row. now rewrite fold_left_map.
Qed.

Lemma length_raster (w h : nat) : length (raster w h) = h * w.
Proof.
  unfold raster. induction h as [| h IH]; [reflexivity |].
  rewrite seq_S, flat_map_app, length_app, IH. cbn [flat_map Nat.add].
  rewrite app_nil_r, length_map, length_seq. lia.
Qed.

Lemma raster_lookup (w h k : nat) :
  k < w * h -> raster w h !! k = Some (k mod w, k / w).
Proof.
  induction h as [| h IH]; intros Hk; [lia |].
  assert (Hw : w <> 0) by lia.
  change (raster w (S h)) with
    (flat_map (fun y => map (fun x => (x, y)) (seq 0 w)) (seq 0 (S h))).
  rewrite seq_S, flat_map_app. fold (raster w h).
  cbn [flat_map Nat.add]. rewrite app_nil_r.
  destruct (Nat.lt_ge_cases k (w * h)) as [Hlt | Hge].
  - rewrite lookup_app_l by (rewrite length_raster; lia). now apply IH.
  - rewrite lookup_app_r by (rewrite length_raster; lia).
    rewrite length_raster, list_lookup_fmap, lookup_seq_lt by lia.
    cbn [fmap option_fmap option_map Nat.add]. repeat f_equal.
    + apply (Nat.mod_unique k w h); lia.
    + apply (Nat.div_unique k w h (k - h * w)); lia.
Qed.

Lemma raster_in_bounds (w h : nat) :
  Forall (fun p => fst p < w /\ snd p < h) (raster w h).
Proof.
  apply List.Forall_forall. intros [x y] Hin. unfold raster in Hin.
  apply in_flat_map in Hin as (y' & Hy & Hin).
  apply in_map_iff in Hin as (x' & Heq & Hx).
  injection Heq as <- <-. apply in_seq in Hy, Hx. cbn [fst snd]. lia.
Qed.

(** ** The working copy *)

Lemma get_copy_upto (data out : list Z) (n i : nat) :
  get (fold_left (fun o k => store_int o k (get data k)) (seq 0 n) out) i =
  if decide (i < n /\ i < length out) then clamp_byte (get data i) else get out i.
Proof.
  induction n as [| n IH].
  - cbn [seq fold_left]. case_decide; [lia | reflexivity].
  - rewrite seq_S, fold_left_app. cbn [fold_left Nat.add].
    unfold store_int at 1. rewrite get_insert, IH.
    assert (Hlen : forall m, length (fold_left
              (fun o k => store_int o k (get data k)) (seq 0 m) out) = length out).
    { clear. induction m as [| m IHm]; [reflexivity |].
      rewrite seq_S, fold_left_app. cbn [fold_left]. now rewrite length_store_int. }
    rewrite Hlen.
    destruct (decide (n = i /\ n < length out)) as [[-> ?] | ?];
      repeat case_decide; try lia; reflexivity.
Qed.

Lemma length_copy_into (out data : list Z) :
  length (copy_into out data) = length out.
Proof.
  unfold copy_into. generalize (length data). intros m.
  induction m as [| m IHm]; [reflexivity |].
  rewrite seq_S, fold_left_app. cbn [fold_left]. now rewrite length_store_int.
Qed.

Lemma get_replicate_0 (n i : nat) : get (replicate n 0%Z) i = 0%Z.
Proof.
  unfold get. destruct (replicate n 0%Z !! i) as [v |] eqn:E; [| reflexivity].
  apply lookup_replicate in E as [-> _]. reflexivity.
Qed.

Lemma get_copy_into (n : nat) (data : list Z) (i : nat) :
  i < n ->
  get (copy_into (replicate n 0%Z) data) i = clamp_byte (get data i).
Proof.
  intros Hi. unfold copy_into. rewrite get_copy_upto, length_replicate.
  case_decide as Hd; [reflexivity |].
  rewrite get_replicate_0. unfold get.
  rewrite (lookup_ge_None_2 data i) by lia. reflexivity.
Qed.

Lemma get_byte (data : list Z) (i : nat) :
  Forall (fun v => 0 <= v <= 255)%Z data ->
  clamp_byte (get data i) = get data i.
Proof.
  intros Hb. unfold get, clamp_byte.
  destruct (data !! i) as [v |] eqn:E; simpl; [| reflexivity].
  pose proof (Forall_lookup_1 _ _ _ _ Hb E) as Hv. simpl in Hv. lia.
Qed.

(** ** The whole pass *)

Lemma length_fold_visits w h pal (l : list (nat * nat)) (out : list Z) :
  length (fold_left (fs_visit w h pal) l out) = length out.
Proof.
  revert out. induction l as [| p l IH]; intros out; [reflexivity |].
  cbn [fold_left]. rewrite IH. apply length_fs_pixel.
Qed.

Lemma fs_pixel_spec_alpha w pal out y x px py :
  fs_pixel_spec w pal out y x px py 3 = get out (pixel_index w px py + 3).
Proof. reflexivity. Qed.

Lemma fold_visits_alpha w h pal (l : list (nat * nat)) (out : list Z)
    (px py : nat) :
  length out = w * h * 4 ->
  Forall (fun p => fst p < w /\ snd p < h) l ->
  px < w -> py < h ->
  get (fold_left (fs_visit w h pal) l out) (pixel_index w px py + 3) =
  get out (pixel_index w px py + 3).
Proof.
  intros Hlen Hl Hpx Hpy. revert out Hlen.
  induction Hl as [| [x y] l [Hx Hy] _ IH]; intros out Hlen; [reflexivity |].
  cbn [fold_left fst snd] in *. unfold fs_visit at 2. cbn [fst snd].
  rewrite IH by (now rewrite length_fs_pixel).
  rewrite get_fs_pixel by (assumption || lia). apply fs_pixel_spec_alpha.
Qed.

Lemma floydSteinberg_length (img : ImageData) (pal : list string) :
  length (data (floydSteinberg img pal)) = width img * height img * 4.
Proof.
  rewrite floydSteinberg_raster, length_fold_visits, length_copy_into.
  apply length_replicate.
Qed.

Lemma floydSteinberg_alpha (img : ImageData) (pal : list string) (x y : nat) :
  x < width img -> y < height img ->
  get (data (floydSteinberg img pal)) (pixel_index (width img) x y + 3) =
  clamp_byte (get (data img) (pixel_index (width img) x y + 3)).
Proof.
  intros Hx Hy. rewrite floydSteinberg_raster.
  rewrite fold_visits_alpha; try assumption.
  - apply get_copy_into.
    pose proof (pixel_index_bound _ _ _ _ Hx Hy). lia.
  - rewrite length_copy_into. apply length_replicate.
  - apply raster_in_bounds.
Qed.

(** C4: for every input buffer and palette, the ditherer visits the pixels
    in row-major order (the k-th visit is at column k mod width of row
    k / width), and the visit of pixel (x, y) changes the working buffer
    pixel by pixel as follows: R, G, B of (x, y) become the palette colour;
    R, G, B of the neighbours inside the buffer, right (x+1, y), bottom-left
    (x-1, y+1), bottom (x, y+1) and bottom-right (x+1, y+1), become
    clamp(current + error * weight / 16, 0, 255) with weights 7, 3, 5, 1,
    stored as a byte of the clamped array, channel by channel, with the
    signed error old - new; every other channel, every alpha and every
    other pixel keep their value, so nothing wraps around a row end and no
    dropped weight is redistributed. *)
Theorem floydSteinberg_diffusion (imageData : ImageData) (palette : list string) :
  let w := width imageData in
  let h := height imageData in
  data (floydSteinberg imageData palette) =
    fold_left (fs_visit w h palette) (raster w h)
      (copy_into (replicate (w * h * 4) 0%Z) (data imageData)) /\
  (forall k, k < w * h -> raster w h !! k = Some (k mod w, k / w)) /\
  (forall (out : list Z) (x y px py c : nat),
      length out = w * h * 4 -> x < w -> y < h -> px < w -> py < h -> c < 4 ->
      fs_visit w h palette out (x, y) !! (pixel_index w px py + c) =
      Some (let old := rgb_at w out x y in
            let new := findClosestColor (fst (fst old)) (snd (fst old))
                         (snd old) palette in
            let current := get out (pixel_index w px py + c) in
            if c =? 3 then current
            else if (px =? x) && (py =? y) then clamp_byte (channel new c)
            else match kernel x y px py with
                 | Some weight =>
                     ToUint8Clamp
                       (Math_max 0%float
                          (Math_min 255%float
                             (of_int current
                              + of_int ((channel old c - channel new c) * weight)
                                / 16)%float))
                 | None => current
                 end)).
Proof.
  cbv zeta. split; [apply floydSteinberg_raster |].
  split; [intros k Hk; now apply raster_lookup |].
  intros out x y px py c Hlen Hx Hy Hpx Hpy Hc.
  unfold fs_visit. cbn [fst snd].
  now rewrite (lookup_fs_pixel _ (height imageData)).
Qed.

Lemma floydSteinberg_diffusion_witness :
  raster 4 4 !! 6 = Some (2, 1) /\
  fs_visit 4 4 DEFAULT_PALETTE (data gray4) (1, 1) !! (pixel_index 4 2 1 + 0)
  = Some 72%Z.
Proof.
  split.
  - exact (proj1 (proj2 (floydSteinberg_diffusion gray4 DEFAULT_PALETTE))
             6 ltac:(vm_compute; lia)).
  - exact (proj2 (proj2 (floydSteinberg_diffusion gray4 DEFAULT_PALETTE))
             (data gray4) 1 1 2 1 0 eq_refl ltac:(vm_compute; lia)
             ltac:(vm_compute; lia) ltac:(vm_compute; lia)
             ltac:(vm_compute; lia) ltac:(lia)).
Defined.

(** C8: for every well-formed input buffer and every palette, the ditherer
    returns a newly allocated object (a reference that was free), leaves
    every object of the heap, the input among them, as it was, and its
    output has the width and height of the input and, at every pixel, the
    alpha of the input. *)
Theorem floydSteinberg_fresh_output (h : heap) (imageData : ref)
    (img : ImageData) (palette : list string) :
  h !! imageData = Some img -> valid_image img ->
  let '(h', output) := floydSteinberg_heap h imageData palette in
  h !! output = None /\
  (forall q o, h !! q = Some o -> h' !! q = Some o) /\
  h' !! imageData = Some img /\
  exists out, h' !! output = Some out /\
    width out = width img /\ height out = height img /\
    forall x y, x < width img -> y < height img ->
      get (data out) (pixel_index (width img) x y + 3) =
      get (data img) (pixel_index (width img) x y + 3).
Proof.
  intros Hin [Hlen Hbytes]. unfold floydSteinberg_heap. rewrite Hin.
  unfold alloc.
  assert (Hold : forall q o, h !! q = Some o ->
                   (h ++ [floydSteinberg img palette]) !! q = Some o).
  { intros q o Hq. rewrite lookup_app_l; [exact Hq |].
    eapply lookup_lt_Some, Hq. }
  split; [now apply lookup_ge_None_2 |].
  split; [exact Hold |]. split; [now apply Hold |].
  exists (floydSteinberg img palette).
  split; [now apply list_lookup_middle |].
  split; [reflexivity |]. split; [reflexivity |].
  intros x y Hx Hy. rewrite floydSteinberg_alpha by assumption.
  now apply get_byte.
Qed.

Lemma floydSteinberg_fresh_output_witness :
  let '(h', output) := floydSteinberg_heap [gray4] 0 DEFAULT_PALETTE in
  [gray4] !! output = None /\ h' !! 0 = Some gray4.
Proof.
  assert (Hv : valid_image gray4).
  { split; [reflexivity |].
    repeat (apply Forall_cons; split; [lia |]). apply Forall_nil_2. }
  pose proof (floydSteinberg_fresh_output [gray4] 0 gray4 DEFAULT_PALETTE
                eq_refl Hv) as H.
  destruct (floydSteinberg_heap [gray4] 0 DEFAULT_PALETTE) as [h' output].
  destruct H as (Hfree & _ & Hkeep & _). split; assumption.
Defined.

(** ** Stored values are bytes *)

Lemma ToUint8Clamp_range (x : number) : (0 <= ToUint8Clamp x <= 255)%Z.
Proof.
  unfold ToUint8Clamp.
  destruct (Prim2SF x) as [[] | [] | | [] m e]; try lia.
  destruct (0 <=? e)%Z eqn:He.
  - apply Z.leb_le in He. pose proof (Z.pow_nonneg 2 e ltac:(lia)).
    pose proof (Z.mul_nonneg_nonneg (Z.pos m) (2 ^ e) ltac:(lia) ltac:(lia)).
    lia.
  - assert (0 <= Z.shiftr (Z.pos m) (- e))%Z by (apply Z.shiftr_nonneg; lia).
    destruct (2 * _ ?= _)%Z; [destruct (Z.even _) | |]; lia.
Qed.

Lemma clamp_byte_range (z : Z) : (0 <= clamp_byte z <= 255)%Z.
Proof. unfold clamp_byte. lia. Qed.

Lemma clamp_byte_id (z : Z) : (0 <= z <= 255)%Z -> clamp_byte z = z.
Proof. unfold clamp_byte. lia. Qed.

Lemma bytes_get (a : list Z) (i : nat) : bytes a -> (0 <= get a i <= 255)%Z.
Proof.
  intros Ha. unfold get. destruct (a !! i) as [v |] eqn:E; simpl; [| lia].
  exact (Forall_lookup_1 _ _ _ _ Ha E).
Qed.

Lemma bytes_store a i v : bytes a -> bytes (store a i v).
Proof. intros Ha. apply Forall_insert; [exact Ha | apply ToUint8Clamp_range]. Qed.

Lemma bytes_store_int a i v : bytes a -> bytes (store_int a i v).
Proof. intros Ha. apply Forall_insert; [exact Ha | apply clamp_byte_range]. Qed.

Lemma bytes_diffuse a n eR eG eB w : bytes a -> bytes (diffuse a n eR eG eB w).
Proof. intros Ha. unfold diffuse. now repeat apply bytes_store. Qed.

Lemma bytes_fs_pixel w h pal a y x : bytes a -> bytes (fs_pixel w h pal a y x).
Proof.
  intros Ha. unfold fs_pixel. destruct (findClosestColor _ _ _ _) as [[nR nG] nB].
  repeat match goal with
         | |- context [if ?b then _ else _] => destruct b
         end;
    repeat first [apply bytes_diffuse | apply bytes_store_int]; exact Ha.
Qed.

Lemma bytes_copy_into (out data : list Z) : bytes out -> bytes (copy_into out data).
Proof.
  unfold copy_into. generalize (length data). intros m Hout.
  induction m as [| m IHm]; [exact Hout |].
  rewrite seq_S, fold_left_app. cbn [fold_left]. now apply bytes_store_int.
Qed.

Lemma bytes_replicate_0 (n : nat) : bytes (replicate n 0%Z).
Proof. apply Forall_replicate. lia. Qed.

(** ** Visited pixels are final *)

Lemma rgb_at_fs_pixel (w h : nat) (pal : list string) (a : list Z)
    (x y px py : nat) :
  length a = w * h * 4 -> x < w -> y < h -> px < w -> py < h ->
  rgb_at w (fs_pixel w h pal a y x) px py =
  (fs_pixel_spec w pal a y x px py 0, fs_pixel_spec w pal a y x px py 1,
   fs_pixel_spec w pal a y x px py 2).
Proof.
  intros Hlen Hx Hy Hpx Hpy. unfold rgb_at.
  rewrite <- !(get_fs_pixel w h pal a x y px py) by (assumption || lia).
  now rewrite Nat.add_0_r.
Qed.

Lemma rgb_at_visited (w h : nat) (pal : list string) (a : list Z) (x y : nat) :
  length a = w * h * 4 -> x < w -> y < h ->
  rgb_at w (fs_pixel w h pal a y x) x y =
  clamp_rgb (findClosestColor (get a (pixel_index w x y))
               (get a (pixel_index w x y + 1)) (get a (pixel_index w x y + 2))
               pal).
Proof.
  intros Hlen Hx Hy. rewrite (rgb_at_fs_pixel w h) by assumption.
  unfold fs_pixel_spec, rgb_at. cbn [fst snd Nat.eqb].
  rewrite !Nat.eqb_refl. cbn [andb].
  now destruct (findClosestColor _ _ _ pal) as [[nR nG] nB].
Qed.

Lemma rgb_at_earlier (w h : nat) (pal : list string) (a : list Z) (j k : nat) :
  length a = w * h * 4 -> j < k -> k < w * h ->
  rgb_at w (fs_pixel w h pal a (k / w) (k mod w)) (j mod w) (j / w) =
  rgb_at w a (j mod w) (j / w).
Proof.
  intros Hlen Hjk Hk.
  assert (Hw : w <> 0) by lia.
  pose proof (Nat.div_mod_eq j w) as Ej. pose proof (Nat.div_mod_eq k w) as Ek.
  pose proof (Nat.mod_upper_bound j w Hw) as Bj.
  pose proof (Nat.mod_upper_bound k w Hw) as Bk.
  assert (Hy : k / w < h) by (apply Nat.Div0.div_lt_upper_bound; lia).
  assert (Hpy : j / w < h) by (apply Nat.Div0.div_lt_upper_bound; lia).
  rewrite (rgb_at_fs_pixel w h) by assumption.
  unfold fs_pixel_spec, kernel, rgb_at. cbn [Nat.eqb].
  revert Ej Ek Bj Bk. generalize (j mod w) (j / w) (k mod w) (k / w).
  intros px py x y Ej Ek Bj Bk.
  assert (Hrows : py < y \/ py = y \/ py = y + 1 \/ y + 1 < py) by lia.
  destruct Hrows as [Hrow | [-> | [-> | Hrow]]]; decide_guards;
    try reflexivity; try nia.
  all: now rewrite Nat.add_0_r.
Qed.

Lemma fold_visits_quantized (Q : rgb -> Prop) (w h : nat) (pal : list string) :
  (forall r g b, (0 <= r <= 255)%Z -> (0 <= g <= 255)%Z -> (0 <= b <= 255)%Z ->
                 Q (clamp_rgb (findClosestColor r g b pal))) ->
  forall (k : nat) (out : list Z),
    k <= w * h -> length out = w * h * 4 -> bytes out ->
    let out' := fold_left (fs_visit w h pal) (take k (raster w h)) out in
    length out' = w * h * 4 /\ bytes out' /\
    forall j, j < k -> Q (rgb_at w out' (j mod w) (j / w)).
Proof.
  intros HQ. induction k as [| k IH]; intros out Hk Hlen Hb; cbv zeta.
  - cbn [take fold_left]. repeat split; try assumption. intros j Hj. lia.
  - destruct (IH out ltac:(lia) Hlen Hb) as (Hlen' & Hb' & Hq). cbv zeta in *.
    rewrite (take_S_r _ _ (k mod w, k / w)) by (apply raster_lookup; lia).
    rewrite fold_left_app. cbn [fold_left].
    set (cur := fold_left (fs_visit w h pal) (take k (raster w h)) out) in *.
    change (fs_visit w h pal cur (k mod w, k / w))
      with (fs_pixel w h pal cur (k / w) (k mod w)).
    assert (Hw : w <> 0) by lia.
    assert (Hx : k mod w < w) by now apply Nat.mod_upper_bound.
    assert (Hy : k / w < h) by (apply Nat.Div0.div_lt_upper_bound; lia).
    split; [now rewrite length_fs_pixel |].
    split; [now apply bytes_fs_pixel |].
    intros j Hj. destruct (Nat.eq_dec j k) as [-> | Hne].
    + rewrite (rgb_at_visited w h) by assumption.
      apply HQ; now apply bytes_get.
    + rewrite rgb_at_earlier by (assumption || lia). apply Hq. lia.
Qed.

Lemma floydSteinberg_quantized (Q : rgb -> Prop) (img : ImageData)
    (pal : list string) (x y : nat) :
  (forall r g b, (0 <= r <= 255)%Z -> (0 <= g <= 255)%Z -> (0 <= b <= 255)%Z ->
                 Q (clamp_rgb (findClosestColor r g b pal))) ->
  x < width img -> y < height img ->
  Q (rgb_at (width img) (data (floydSteinberg img pal)) x y).
Proof.
  intros HQ Hx Hy. rewrite floydSteinberg_raster.
  set (w := width img) in *. set (h := height img) in *.
  pose proof (fold_visits_quantized Q w h pal HQ (w * h)
                (copy_into (replicate (w * h * 4) 0%Z) (data img))
                (le_n _)) as H.
  cbv zeta in H. rewrite firstn_all2 in H by (rewrite length_raster; lia).
  destruct H as (_ & _ & Hq).
  - rewrite length_copy_into. apply length_replicate.
  - apply bytes_copy_into, bytes_replicate_0.
  - specialize (Hq (y * w + x)).
    assert (E1 : (y * w + x) mod w = x).
    { symmetry. apply (Nat.mod_unique _ w y); lia. }
    assert (E2 : (y * w + x) / w = y).
    { symmetry. apply (Nat.div_unique _ w y x); lia. }
    rewrite E1, E2 in Hq. apply Hq. nia.
Qed.

(** ** The empty palette *)

(** C2, as stated, fails: with an empty palette nothing is raised; the
    worker answers [DITHER_COMPLETE] with a buffer, here a black pixel. *)
Lemma empty_palette_counterexample :
  onmessage "DITHER" (pixel1 10 20 30 255) "floyd-steinberg" []
    = Some (DITHER_COMPLETE (pixel1 0 0 0 255)) /\
  ~ (exists e, onmessage "DITHER" (pixel1 10 20 30 255) "floyd-steinberg" []
               = Some (ERROR e)).
Proof.
  split; [vm_compute; reflexivity |].
  intros [e He]. vm_compute in He. discriminate.
Qed.

(** C2 (amended): when the palette is empty neither the matcher nor the
    ditherer fails: the matcher returns its initial colour (0,0,0) for
    every input, and the ditherer runs its whole pass and returns a buffer
    of the input's width and height in which R, G and B of every pixel are
    0; the worker reports it as [DITHER_COMPLETE]. *)
Theorem empty_palette_black (imageData : ImageData) :
  (forall r g b, findClosestColor r g b [] = (0, 0, 0)%Z) /\
  onmessage "DITHER" imageData "floyd-steinberg" []
    = Some (DITHER_COMPLETE (floydSteinberg imageData [])) /\
  width (floydSteinberg imageData []) = width imageData /\
  height (floydSteinberg imageData []) = height imageData /\
  forall x y, x < width imageData -> y < height imageData ->
    rgb_at (width imageData) (data (floydSteinberg imageData [])) x y
    = (0, 0, 0)%Z.
Proof.
  split; [reflexivity |]. split; [reflexivity |].
  split; [reflexivity |]. split; [reflexivity |].
  intros x y Hx Hy.
  apply (floydSteinberg_quantized (fun p => p = (0, 0, 0)%Z)); try assumption.
  reflexivity.
Qed.

Lemma empty_palette_black_witness :
  rgb_at 1 (data (floydSteinberg (pixel1 10 20 30 255) [])) 0 0 = (0, 0, 0)%Z.
Proof.
  exact (proj2 (proj2 (proj2 (proj2 (empty_palette_black (pixel1 10 20 30 255)))))
           0 0 ltac:(vm_compute; lia) ltac:(vm_compute; lia)).
Defined.

(** ** The raw-image cache *)

Section Cache.

Variable Math_pow : number -> number -> number.
Variable getCompositeImageData : nat -> Z -> option ImageData.

Lemma applyLevelsToImageData_at (h : heap) (r : ref) (img : ImageData)
    (l : LevelsSettings) :
  h !! r = Some img ->
  applyLevelsToImageData Math_pow h r l
  = (<[r := levels_image Math_pow l img]> h, r).
Proof. intros Hr. unfold applyLevelsToImageData. now rewrite Hr. Qed.

Lemma process_raw_objects (ps : PreviewState) (a : App) (r : ref)
    (img : ImageData) :
  objects a !! r = Some img ->
  objects (process_raw Math_pow ps a r) =
  <[r := levels_image Math_pow (levels ps) img]> (objects a)
  ++ [floydSteinberg (levels_image Math_pow (levels ps) img) (palette ps)]
  /\ cachedRawImageRef (process_raw Math_pow ps a r) = cachedRawImageRef a.
Proof.
  intros Hr. unfold process_raw.
  rewrite (applyLevelsToImageData_at _ _ _ _ Hr). cbv beta iota zeta.
  unfold floydSteinberg_heap.
  rewrite list_lookup_insert_eq by (eapply lookup_lt_Some, Hr).
  unfold alloc. cbv beta iota zeta. split; reflexivity.
Qed.

(** What a run that captures leaves in the cache: the object the host
    returned, rewritten in place by the levels stage. *)
Lemma processImage_capture (ps : PreviewState) (a : App) (img : ImageData) :
  getCompositeImageData (clock a) (processingScale ps) = Some img ->
  let a' := fst (processImage Math_pow getCompositeImageData ps false a) in
  let r := length (objects a) in
  cachedRawImageRef a' = Some r /\
  objects a' !! r = Some (levels_image Math_pow (levels ps) img).
Proof.
  intros Hhost. cbv zeta. unfold processImage.
  cbn [clock with_state objects previewState cachedRawImageRef].
  rewrite Hhost. unfold alloc. cbn [fst].
  set (a1 := with_cache _ _ _).
  assert (Hr : objects a1 !! length (objects a) = Some img)
    by (now apply list_lookup_middle).
  destruct (process_raw_objects ps a1 _ _ Hr) as [Hobj Hcache].
  rewrite Hobj, Hcache. split; [reflexivity |].
  rewrite lookup_app_l by (rewrite length_insert; eapply lookup_lt_Some, Hr).
  apply list_lookup_insert_eq. eapply lookup_lt_Some, Hr.
Qed.

(** A run from the cache reads the cached object as it is now. *)
Lemma processImage_cached (ps : PreviewState) (a : App) (r : ref)
    (img : ImageData) :
  cachedRawImageRef a = Some r -> objects a !! r = Some img ->
  let '(a', run) := processImage Math_pow getCompositeImageData ps true a in
  source run = UsedCache r /\
  scaleAtRun run = processingScale (previewState a) /\
  cachedRawImageRef a' = Some r /\
  objects a' !! r = Some (levels_image Math_pow (levels ps) img) /\
  objects a' !! length (objects a)
  = Some (floydSteinberg (levels_image Math_pow (levels ps) img) (palette ps)).
Proof.
  intros Hc Hr. unfold processImage.
  cbn [with_state cachedRawImageRef previewState processingScale set_isProcessing].
  rewrite Hc.
  set (a1 := with_state a _).
  assert (Hr1 : objects a1 !! r = Some img) by exact Hr.
  destruct (process_raw_objects ps a1 _ _ Hr1) as [Hobj Hcache].
  cbn [source scaleAtRun]. rewrite Hobj, Hcache.
  pose proof (lookup_lt_Some _ _ _ Hr) as Hlt.
  repeat split; try reflexivity; try exact Hc.
  - rewrite lookup_app_l by (now rewrite length_insert).
    now apply list_lookup_insert_eq.
  - apply list_lookup_middle. now rewrite length_insert.
Qed.

End Cache.

Section CacheTiming.

Variable Math_pow : number -> number -> number.
Variable getCompositeImageData : nat -> Z -> option ImageData.

Lemma process_raw_frame (ps : PreviewState) (a : App) (r : ref) :
  settingsTimer (process_raw Math_pow ps a r) = settingsTimer a /\
  scaleTimer (process_raw Math_pow ps a r) = scaleTimer a /\
  clock (process_raw Math_pow ps a r) = clock a.
Proof.
  unfold process_raw.
  destruct (applyLevelsToImageData _ _ _ _) as [h1 leveled].
  destruct (floydSteinberg_heap _ _ _) as [h2 dithered].
  repeat split.
Qed.

Lemma processImage_from_cache (ps : PreviewState) (a : App) (r : ref) :
  cachedRawImageRef a = Some r ->
  processImage Math_pow getCompositeImageData ps true a =
  (process_raw Math_pow ps
     (with_state a (set_isProcessing true (previewState a))) r,
   {| source := UsedCache r;
      scaleAtRun := processingScale (previewState a) |}).
Proof.
  intros Hc. unfold processImage.
  cbn [with_state cachedRawImageRef previewState processingScale set_isProcessing].
  now rewrite Hc.
Qed.

Lemma handleProcessingScaleChange_arms (a : App) (r : ref) (v : Z) :
  cachedRawImageRef a = Some r ->
  livePreview (previewState a) = true ->
  v <> processingScale (previewState a) ->
  let a' := handleProcessingScaleChange v a in
  previewState a' = set_processingScale v (previewState a) /\
  cachedRawImageRef a' = Some r /\ clock a' = clock a /\
  objects a' = objects a /\
  scaleTimer a' = Some {| due := clock a + 500;
                          closure := set_processingScale v (previewState a) |}.
Proof.
  intros Hc Hlive Hv. cbv zeta. unfold handleProcessingScaleChange.
  destruct (Z.eqb_spec v (processingScale (previewState a))) as [? | _];
    [contradiction |].
  cbn [negb]. unfold scale_effect, cache_present.
  cbn [previewState with_state cachedRawImageRef with_timers clock objects
       scaleTimer set_processingScale livePreview].
  rewrite Hlive, Hc. repeat split.
Qed.

Lemma handleLevelsChange_arms (a : App) (r : ref) (c : LevelsChange) :
  cachedRawImageRef a = Some r ->
  livePreview (previewState a) = true ->
  let a' := handleLevelsChange c a in
  processingScale (previewState a') = processingScale (previewState a) /\
  cachedRawImageRef a' = Some r /\ clock a' = clock a /\
  objects a' = objects a /\ scaleTimer a' = scaleTimer a /\
  settingsTimer a' = Some {| due := clock a + 300; closure := previewState a' |}.
Proof.
  intros Hc Hlive. cbv zeta. unfold handleLevelsChange, settings_effect,
    cache_present.
  cbn [previewState with_state cachedRawImageRef with_timers clock objects
       scaleTimer settingsTimer set_levels livePreview processingScale].
  rewrite Hlive, Hc. repeat split.
Qed.

(** When the settings timer is due within the elapsed time and the scale
    timer is not, the only run is the one of the settings timer, and it
    takes the cached buffer. *)
Lemma elapse_settings_first (a : App) (ts tc : Timer) (ms : nat) (r : ref) :
  settingsTimer a = Some ts -> scaleTimer a = Some tc ->
  due ts <= clock a + ms -> clock a + ms < due tc ->
  cachedRawImageRef a = Some r ->
  snd (elapse Math_pow getCompositeImageData ms a)
  = [{| source := UsedCache r;
        scaleAtRun := processingScale (previewState a) |}].
Proof.
  intros Hts Htc Hdue Hlate Hc.
  unfold elapse, fire_next at 1. rewrite Hts, Htc.
  replace (due tc <=? due ts) with false by (symmetry; apply Nat.leb_gt; lia).
  replace (due ts <=? clock a + ms) with true by (symmetry; apply Nat.leb_le; lia).
  unfold fire_settings.
  rewrite (processImage_from_cache _ _ r) by exact Hc.
  cbn [previewState with_clock with_timers].
  match goal with
  | |- context [process_raw Math_pow ?p ?b r] =>
      destruct (process_raw_frame p b r) as (Hst & Hsc & _);
      set (a1 := process_raw Math_pow p b r) in *
  end.
  unfold fire_next. rewrite Hst, Hsc.
  cbn [settingsTimer scaleTimer with_clock with_timers with_state].
  rewrite ?Htc.
  replace (due tc <=? clock a + ms) with false
    by (symmetry; apply Nat.leb_gt; lia).
  reflexivity.
Qed.

(** C9: the claim is right about the intent of the code (the scale effect
    clears the cache before its own run) but the code lets a run from the
    cache slip in first.  With a raw image cached and live preview on, a
    change of the processing scale to a new value followed by a levels
    change arms the 500 ms scale timer and then the 300 ms settings timer;
    300 ms later the settings timer fires first and its run takes the
    cached buffer, captured at the old scale, while the state already holds
    the new scale. *)
Theorem stale_cache_after_scale_change (a : App) (r : ref) (v : Z)
    (c : LevelsChange) :
  cachedRawImageRef a = Some r ->
  livePreview (previewState a) = true ->
  v <> processingScale (previewState a) ->
  snd (run_events Math_pow getCompositeImageData a
         [ChangeProcessingScale v; ChangeLevels c; Elapse 300])
  = [{| source := UsedCache r; scaleAtRun := v |}].
Proof.
  intros Hc Hlive Hv.
  destruct (handleProcessingScaleChange_arms a r v Hc Hlive Hv)
    as (Hps1 & Hc1 & Hclk1 & _ & Hsc1).
  set (a1 := handleProcessingScaleChange v a) in *.
  assert (Hlive1 : livePreview (previewState a1) = true)
    by (rewrite Hps1; exact Hlive).
  destruct (handleLevelsChange_arms a1 r c Hc1 Hlive1)
    as (Hps2 & Hc2 & Hclk2 & _ & Hsc2 & Hst2).
  set (a2 := handleLevelsChange c a1) in *.
  unfold run_events, step. fold a1. fold a2.
  destruct (elapse Math_pow getCompositeImageData 300 a2) as [a3 runs] eqn:E.
  cbn [snd app].
  rewrite app_nil_r.
  change runs with (snd (a3, runs)). rewrite <- E.
  rewrite (elapse_settings_first a2 _ _ 300 r Hst2 (eq_trans Hsc2 Hsc1));
    cbn [due]; try lia; try assumption.
  now rewrite Hps2, Hps1.
Qed.

End CacheTiming.

(** C1: the claim is right and the code is not.  The levels stage rewrites
    the very object the cache refers to, so after the first run the cached
    "raw" buffer holds leveled pixels.  Here the host returns the pixel
    (200,200,200,255) and the black point is 220: when the cache-reusing
    run starts (the black point is back at 0), the cached buffer reads
    (0,0,0,255), not the captured pixels. *)
Theorem cache_holds_leveled_pixels (Math_pow : number -> number -> number) :
  let host := constant_host (pixel1 200 200 200 255) in
  let '(a, runs) :=
    run_events Math_pow host initialApp
      [ChangeLevels (SetBlackPoint 220); ClickProcess;
       ChangeLevels (SetBlackPoint 0)] in
  runs = [{| source := Captured 10 0; scaleAtRun := 10 |}] /\
  cachedRawImageRef a = Some 0 /\
  objects a !! 0 = Some (pixel1 0 0 0 255) /\
  snd (elapse Math_pow host 300 a)
  = [{| source := UsedCache 0; scaleAtRun := 10 |}].
Proof. vm_compute. repeat split. Qed.

Lemma stale_cache_after_scale_change_witness :
  snd (run_events (fun x _ => x) (constant_host (pixel1 0 0 0 255))
         (fst (clickProcess (fun x _ => x) (constant_host (pixel1 0 0 0 255))
                 initialApp))
         [ChangeProcessingScale 20; ChangeLevels (SetBlackPoint 10); Elapse 300])
  = [{| source := UsedCache 0; scaleAtRun := 20 |}].
Proof.
  apply stale_cache_after_scale_change.
  - vm_compute. reflexivity.
  - vm_compute. reflexivity.
  - vm_compute. discriminate.
Defined.

(** The scenario of the cache-invalidation property, from the start: a
    capture at scale 10, the scale set to 20, a levels change 100 ms
    later; the settings timer fires at 400 ms and reuses the scale-10
    buffer, the scale timer fires at 500 ms and captures at scale 20. *)
Example stale_cache_trace (Math_pow : number -> number -> number) :
  snd (run_events Math_pow (constant_host (pixel1 0 0 0 255)) initialApp
         [ClickProcess; ChangeProcessingScale 20; Elapse 100;
          ChangeLevels (SetBlackPoint 10); Elapse 300; Elapse 100])
  = [{| source := Captured 10 0; scaleAtRun := 10 |};
     {| source := UsedCache 0; scaleAtRun := 20 |};
     {| source := Captured 20 3; scaleAtRun := 20 |}].
Proof. vm_compute. reflexivity. Qed.

(** ** The levels stage on a whole buffer *)

Section LevelsBuffer.

Variable Math_pow : number -> number -> number.
Variable l : LevelsSettings.

Lemma length_levels_channel d i :
  length (levels_channel Math_pow l d i) = length d.
Proof.
  unfold levels_channel. destruct (d !! i); [apply length_store | reflexivity].
Qed.

Lemma get_levels_channel d i j :
  get (levels_channel Math_pow l d i) j =
  if decide (j = i /\ i < length d) then leveled Math_pow l (get d i)
  else get d j.
Proof.
  unfold levels_channel, leveled.
  destruct (d !! i) as [v |] eqn:E.
  - unfold store. rewrite get_insert.
    pose proof (lookup_lt_Some _ _ _ E).
    unfold get at 2. rewrite E. cbn [default].
    repeat case_decide; try lia; reflexivity.
  - apply lookup_ge_None_1 in E. case_decide; [lia | reflexivity].
Qed.

Lemma length_levels_pixel d k :
  length (levels_pixel Math_pow l d k) = length d.
Proof. unfold levels_pixel. now rewrite !length_levels_channel. Qed.

Lemma get_levels_pixel d k j :
  get (levels_pixel Math_pow l d k) j =
  if decide (4 * k <= j <= 4 * k + 2 /\ j < length d)
  then leveled Math_pow l (get d j) else get d j.
Proof.
  unfold levels_pixel.
  rewrite !get_levels_channel, !length_levels_channel.
  repeat case_decide; try lia; repeat f_equal; lia.
Qed.

Lemma length_levels_fold d n :
  length (fold_left (levels_pixel Math_pow l) (seq 0 n) d) = length d.
Proof.
  induction n as [| n IH]; [reflexivity |].
  rewrite seq_S, fold_left_app. cbn [fold_left].
  now rewrite length_levels_pixel.
Qed.

Lemma get_levels_fold d n j :
  get (fold_left (levels_pixel Math_pow l) (seq 0 n) d) j =
  if decide (j < 4 * n /\ j mod 4 <> 3 /\ j < length d)
  then leveled Math_pow l (get d j) else get d j.
Proof.
  pose proof (Nat.div_mod_eq j 4) as Ej.
  pose proof (Nat.mod_upper_bound j 4 ltac:(lia)) as Bj.
  induction n as [| n IH].
  - cbn [seq fold_left]. case_decide; [lia | reflexivity].
  - rewrite seq_S, fold_left_app. cbn [fold_left Nat.add].
    rewrite get_levels_pixel, length_levels_fold, IH.
    repeat case_decide; try lia; reflexivity.
Qed.

Lemma levels_data_pointwise_aux (d : list Z) :
  length (levels_data Math_pow l d) = length d /\
  forall j, j < length d ->
    levels_data Math_pow l d !! j =
    Some (if j mod 4 =? 3 then get d j
          else ToUint8Clamp
                 (applyLevels Math_pow (get d j) (blackPoint l) (midPoint l)
                    (whitePoint l))).
Proof.
  unfold levels_data. split; [apply length_levels_fold |].
  intros j Hj.
  rewrite get_lookup by (now rewrite length_levels_fold).
  rewrite get_levels_fold. f_equal.
  pose proof (Nat.div_mod_eq (length d + 3) 4).
  pose proof (Nat.mod_upper_bound (length d + 3) 4 ltac:(lia)).
  destruct (Nat.eqb_spec (j mod 4) 3); case_decide; try lia; reflexivity.
Qed.

(** The levels stage keeps the length of the array, leaves every alpha
    byte as it is and replaces every R, G and B byte [v], also those of a
    trailing incomplete pixel, by the stored value of [applyLevels v]. *)
Theorem levels_data_pointwise (d : list Z) :
  length (levels_data Math_pow l d) = length d /\
  forall j, j < length d ->
    levels_data Math_pow l d !! j =
    Some (if j mod 4 =? 3 then get d j
          else ToUint8Clamp
                 (applyLevels Math_pow (get d j) (blackPoint l) (midPoint l)
                    (whitePoint l))).
Proof. exact (levels_data_pointwise_aux d). Qed.

End LevelsBuffer.

Lemma levels_data_pointwise_witness :
  levels_data (fun x _ => x) DEFAULT_LEVELS [0; 255; 7; 9; 255]%Z !! 3
  = Some 9%Z.
Proof.
  exact (proj2 (levels_data_pointwise (fun x _ => x) DEFAULT_LEVELS
                  [0; 255; 7; 9; 255]%Z) 3 ltac:(vm_compute; lia)).
Defined.

Lemma default_curve_table : all_upto default_curve_ok 255 = true.
Proof. vm_compute. reflexivity. Qed.

(** With the default settings {0, 1.0, 255} the levels stage changes no
    buffer of bytes (given that [Math.pow(x, 1)] is [x]). *)
Theorem levels_image_default (Math_pow : number -> number -> number)
    (img : ImageData) :
  (forall x, Math_pow x 1%float = x) ->
  bytes (data img) ->
  levels_image Math_pow DEFAULT_LEVELS img = img.
Proof.
  intros Hpow Hb. destruct img as [w h d]. unfold levels_image.
  cbn [width height data] in *. f_equal.
  destruct (levels_data_pointwise_aux Math_pow DEFAULT_LEVELS d) as [Hlen Hpt].
  apply list_eq. intros j.
  destruct (Nat.lt_ge_cases j (length d)) as [Hj | Hj].
  - rewrite (Hpt j Hj), (get_lookup d j Hj). f_equal.
    destruct (j mod 4 =? 3); [reflexivity |].
    pose proof (bytes_get d j Hb) as Hv.
    cbn [blackPoint midPoint whitePoint DEFAULT_LEVELS].
    destruct (Z.eq_dec (get d j) 0%Z) as [-> | H0]; [reflexivity |].
    destruct (Z.eq_dec (get d j) 255%Z) as [-> | H255]; [reflexivity |].
    rewrite applyLevels_curve by lia.
    change (1 / 1)%float with 1%float. rewrite Hpow.
    apply Z.eqb_eq.
    exact (all_upto_spec default_curve_ok 255 default_curve_table (get d j)
             ltac:(lia)).
  - rewrite !lookup_ge_None_2 by lia. reflexivity.
Qed.

Lemma levels_image_default_witness :
  levels_image (fun x _ => x) DEFAULT_LEVELS gray4 = gray4.
Proof.
  apply levels_image_default; [reflexivity |].
  repeat (apply Forall_cons; split; [lia |]). apply Forall_nil_2.
Defined.

(** ** More on the palette matcher *)





Lemma findClosestColor_first (r g b : Z) (palette : list string) :
  (0 <= r <= 255)%Z -> (0 <= g <= 255)%Z -> (0 <= b <= 255)%Z ->
  palette <> [] ->
  Forall (fun c => is_hex_color c = true) palette ->
  exists i, first_nearest r g b palette i (findClosestColor r g b palette).
Proof.
  intros Hr Hg Hb Hne Hpal. unfold findClosestColor.
  destruct (scan_all r g b Hr Hg Hb palette [] (infinity, (0, 0, 0)%Z))
    as [[Hnil _] | (i & Hfn & _)].
  - apply Forall_nil_2.
  - exact Hpal.
  - left. split; reflexivity.
  - cbn [app] in Hnil. contradiction.
  - exists i. exact Hfn.
Qed.

Lemma dist2_zero (r g b : Z) (p : rgb) : dist2 r g b p = 0%Z -> p = (r, g, b).
Proof.
  destruct p as [[pr pg] pb]. unfold dist2. rewrite !Z.pow_2_r. intros H.
  pose proof (Z.square_nonneg (r - pr)). pose proof (Z.square_nonneg (g - pg)).
  pose proof (Z.square_nonneg (b - pb)).
  assert (Hr : ((r - pr) * (r - pr) = 0)%Z) by lia.
  assert (Hg : ((g - pg) * (g - pg) = 0)%Z) by lia.
  assert (Hb : ((b - pb) * (b - pb) = 0)%Z) by lia.
  apply Z.mul_eq_0 in Hr, Hg, Hb.
  repeat f_equal; lia.
Qed.

(** A colour that is in the palette is matched to itself. *)
Lemma findClosestColor_exact (r g b : Z) (palette : list string) (c : string) :
  Forall (fun c => is_hex_color c = true) palette ->
  c ∈ palette -> parse_color c = Some (r, g, b) ->
  findClosestColor r g b palette = (r, g, b).
Proof.
  intros Hpal Hin Hc.
  assert (Hhex : is_hex_color c = true).
  { rewrite Forall_forall in Hpal. now apply Hpal. }
  destruct (parse_color_hex c Hhex) as (pr & pg & pb & Hp & Hr & Hg & Hb).
  rewrite Hc in Hp. injection Hp as <- <- <-.
  assert (Hne : palette <> []) by (intros ->; inversion Hin).
  destruct (findClosestColor_first r g b palette Hr Hg Hb Hne Hpal)
    as (i & _ & Hmin & _).
  apply list_elem_of_lookup in Hin as [j Hj].
  specialize (Hmin j c (r, g, b) Hj Hc).
  apply dist2_zero.
  assert (Hz : dist2 r g b (r, g, b) = 0%Z)
    by (unfold dist2; rewrite !Z.sub_diag; reflexivity).
  assert (Hpos : (0 <= dist2 r g b (findClosestColor r g b palette))%Z).
  { destruct (findClosestColor r g b palette) as [[qr qg] qb]. unfold dist2.
    rewrite !Z.pow_2_r.
    pose proof (Z.square_nonneg (r - qr)). pose proof (Z.square_nonneg (g - qg)).
    pose proof (Z.square_nonneg (b - qb)). lia. }
  lia.
Qed.

(** ** More on the ditherer *)

Lemma bytes_fold_visits w h pal (l : list (nat * nat)) (out : list Z) :
  bytes out -> bytes (fold_left (fs_visit w h pal) l out).
Proof.
  revert out. induction l as [| p l IH]; intros out Hb; [exact Hb |].
  cbn [fold_left]. apply IH. now apply bytes_fs_pixel.
Qed.

Lemma floydSteinberg_valid_aux (img : ImageData) (pal : list string) :
  valid_image (floydSteinberg img pal).
Proof.
  split.
  - now rewrite floydSteinberg_length.
  - rewrite floydSteinberg_raster.
    apply bytes_fold_visits, bytes_copy_into, bytes_replicate_0.
Qed.

(** Whatever the input buffer and the palette, also when the input array
    is shorter or longer than its dimensions say, the output of the
    ditherer has exactly width * height * 4 channels, all of them bytes. *)
Theorem floydSteinberg_valid (img : ImageData) (pal : list string) :
  valid_image (floydSteinberg img pal).
Proof. exact (floydSteinberg_valid_aux img pal). Qed.

Lemma floydSteinberg_in_palette_aux (img : ImageData) (pal : list string) :
  pal <> [] -> Forall (fun c => is_hex_color c = true) pal ->
  in_palette (width img) (height img) pal (data (floydSteinberg img pal)).
Proof.
  intros Hne Hpal x y Hx Hy.
  apply (floydSteinberg_quantized
           (fun p => exists c, c ∈ pal /\ parse_color c = Some p));
    try assumption.
  intros r g b Hr Hg Hb.
  destruct (findClosestColor_first r g b pal Hr Hg Hb Hne Hpal)
    as (i & (c & Hi & Hc) & _).
  exists c. split; [eapply list_elem_of_lookup_2, Hi |].
  assert (Hhex : is_hex_color c = true) by exact (Forall_lookup_1 _ _ _ _ Hpal Hi).
  destruct (parse_color_hex c Hhex) as (pr & pg & pb & Hp & ? & ? & ?).
  rewrite Hc in Hp. injection Hp as Hp. rewrite Hc, Hp.
  unfold clamp_rgb. cbn [fst snd]. now rewrite !clamp_byte_id.
Qed.



(** ** Images that are already quantized *)

Lemma diffused_zero_table : all_upto diffused_zero_ok 255 = true.
Proof. vm_compute. reflexivity. Qed.

Lemma diffused_zero (v w : Z) : (0 <= v <= 255)%Z -> diffused v 0 w = v.
Proof.
  intros Hv.
  assert (E : diffused v 0 w = diffused v 0 1) by reflexivity.
  rewrite E. apply Z.eqb_eq.
  exact (all_upto_spec diffused_zero_ok 255 diffused_zero_table v ltac:(lia)).
Qed.

Lemma pixel_of_index (w h i : nat) :
  i < w * h * 4 ->
  exists px py c, px < w /\ py < h /\ c < 4 /\ i = pixel_index w px py + c.
Proof.
  intros Hi. assert (Hw : w <> 0) by lia.
  exists ((i / 4) mod w), (i / 4 / w), (i mod 4).
  pose proof (Nat.div_mod_eq i 4). pose proof (Nat.mod_upper_bound i 4 ltac:(lia)).
  pose proof (Nat.div_mod_eq (i / 4) w). pose proof (Nat.mod_upper_bound (i / 4) w Hw).
  assert (i / 4 < w * h) by (apply Nat.Div0.div_lt_upper_bound; lia).
  assert (i / 4 / w < h) by (apply Nat.Div0.div_lt_upper_bound; lia).
  unfold pixel_index. repeat split; try assumption; lia.
Qed.

Lemma fs_pixel_fixed (w h : nat) (pal : list string) (a : list Z) (x y : nat) :
  Forall (fun c => is_hex_color c = true) pal ->
  length a = w * h * 4 -> bytes a -> in_palette w h pal a ->
  x < w -> y < h ->
  fs_pixel w h pal a y x = a.
Proof.
  intros Hpal Hlen Hb Hin Hx Hy. apply list_eq. intros i.
  destruct (Nat.lt_ge_cases i (length a)) as [Hi | Hi].
  2: { rewrite !lookup_ge_None_2; [reflexivity | lia |].
       rewrite length_fs_pixel. lia. }
  destruct (pixel_of_index w h i ltac:(lia)) as (px & py & c & Hpx & Hpy & Hc & ->).
  rewrite (lookup_fs_pixel w h) by assumption.
  rewrite (get_lookup a _ Hi). f_equal.
  destruct (Hin x y Hx Hy) as (e & He & Hpe).
  unfold fs_pixel_spec.
  remember (rgb_at w a x y) as old eqn:Hold.
  destruct old as [[oR oG] oB]. cbn [fst snd].
  rewrite (findClosestColor_exact oR oG oB pal e Hpal He Hpe).
  rewrite Z.sub_diag.
  pose proof (bytes_get a (pixel_index w px py + c) Hb) as Hcur.
  destruct (Nat.eqb_spec c 3) as [-> | Hc3]; [reflexivity |].
  destruct (Nat.eqb_spec px x) as [-> | Hne]; cbn [andb].
  - destruct (Nat.eqb_spec py y) as [-> | Hne].
    + unfold rgb_at in Hold. injection Hold as -> -> ->.
      destruct c as [| [| [| c]]]; try lia; cbn [channel fst snd];
        rewrite ?Nat.add_0_r; apply clamp_byte_id, bytes_get, Hb.
    + destruct (kernel x y x py); [now apply diffused_zero | reflexivity].
  - destruct (kernel x y px py); [now apply diffused_zero | reflexivity].
Qed.

Lemma fold_visits_fixed (w h : nat) (pal : list string) (a : list Z)
    (l : list (nat * nat)) :
  Forall (fun c => is_hex_color c = true) pal ->
  length a = w * h * 4 -> bytes a -> in_palette w h pal a ->
  Forall (fun p => fst p < w /\ snd p < h) l ->
  fold_left (fs_visit w h pal) l a = a.
Proof.
  intros Hpal Hlen Hb Hin Hl. apply fold_left_fixed.
  eapply Forall_impl; [exact Hl |]. intros [x y] [Hx Hy]. cbn [fst snd] in *.
  unfold fs_visit. cbn [fst snd]. now apply fs_pixel_fixed.
Qed.

Lemma copy_into_valid (n : nat) (d : list Z) :
  length d = n -> bytes d -> copy_into (replicate n 0%Z) d = d.
Proof.
  intros Hlen Hb. apply list_eq. intros i.
  destruct (Nat.lt_ge_cases i n) as [Hi | Hi].
  - rewrite get_lookup by (rewrite length_copy_into, length_replicate; lia).
    rewrite get_copy_into by exact Hi. rewrite get_byte by exact Hb.
    symmetry. apply get_lookup. lia.
  - rewrite !lookup_ge_None_2; [reflexivity | lia |].
    rewrite length_copy_into, length_replicate. lia.
Qed.

Lemma floydSteinberg_fixed_aux (img : ImageData) (pal : list string) :
  Forall (fun c => is_hex_color c = true) pal ->
  valid_image img ->
  in_palette (width img) (height img) pal (data img) ->
  floydSteinberg img pal = img.
Proof.
  intros Hpal [Hlen Hb] Hin.
  assert (Hd : data (floydSteinberg img pal) = data img).
  { rewrite floydSteinberg_raster, (copy_into_valid _ _ Hlen Hb).
    apply fold_visits_fixed; try assumption. apply raster_in_bounds. }
  destruct img as [w h d]. unfold floydSteinberg in *.
  cbn [width height data createImageData] in *. now rewrite Hd.
Qed.

(** A well-formed image whose pixels all have palette colours is returned
    unchanged: every error is zero and nothing is diffused. *)
Theorem floydSteinberg_fixed (img : ImageData) (pal : list string) :
  Forall (fun c => is_hex_color c = true) pal ->
  valid_image img ->
  in_palette (width img) (height img) pal (data img) ->
  floydSteinberg img pal = img.
Proof. exact (floydSteinberg_fixed_aux img pal). Qed.

(** Dithering is idempotent: with a non-empty palette of [#RRGGBB]
    entries, dithering the output again changes nothing. *)
Theorem floydSteinberg_idempotent (img : ImageData) (pal : list string) :
  pal <> [] -> Forall (fun c => is_hex_color c = true) pal ->
  floydSteinberg (floydSteinberg img pal) pal = floydSteinberg img pal.
Proof.
  intros Hne Hpal. apply floydSteinberg_fixed_aux.
  - exact Hpal.
  - apply floydSteinberg_valid_aux.
  - exact (floydSteinberg_in_palette_aux img pal Hne Hpal).
Qed.

Lemma floydSteinberg_idempotent_witness :
  floydSteinberg (floydSteinberg gray4 DEFAULT_PALETTE) DEFAULT_PALETTE
  = floydSteinberg gray4 DEFAULT_PALETTE.
Proof.
  apply floydSteinberg_idempotent; [discriminate |].
  repeat (apply Forall_cons; split; [reflexivity |]). apply Forall_nil_2.
Defined.

Lemma floydSteinberg_fixed_witness :
  floydSteinberg (pixel1 255 255 255 7) DEFAULT_PALETTE = pixel1 255 255 255 7.
Proof.
  apply floydSteinberg_fixed.
  - repeat (apply Forall_cons; split; [reflexivity |]). apply Forall_nil_2.
  - split; [reflexivity |].
    repeat (apply Forall_cons; split; [lia |]). apply Forall_nil_2.
  - intros x y Hx Hy. cbn [width height pixel1] in Hx, Hy.
    assert (x = 0) as -> by lia. assert (y = 0) as -> by lia.
    exists "#FFFFFF"%string. split; [| reflexivity].
    apply list_elem_of_further, list_elem_of_here.
Defined.

(** ** Copies of images *)

Lemma map_clamp_bytes (d : list Z) : bytes d -> map clamp_byte d = d.
Proof.
  induction 1 as [| v d Hv _ IH]; [reflexivity |].
  cbn [map]. now rewrite IH, clamp_byte_id.
Qed.

(** [cloneImageData] returns an image equal to a well-formed input, pads a
    shorter array with zeros, and fails with the [RangeError] of
    [TypedArray.set] when the array is longer than width * height * 4. *)
Theorem cloneImageData_cases (img : ImageData) :
  (valid_image img -> cloneImageData img = Some img) /\
  (width img * height img * 4 < length (data img) ->
   cloneImageData img = None) /\
  (length (data img) <= width img * height img * 4 ->
   cloneImageData img =
   Some {| width := width img; height := height img;
           data := map clamp_byte (data img)
                   ++ replicate (width img * height img * 4
                                 - length (data img)) 0%Z |}).
Proof.
  assert (Hshort : length (data img) <= width img * height img * 4 ->
    cloneImageData img =
    Some {| width := width img; height := height img;
            data := map clamp_byte (data img)
                    ++ replicate (width img * height img * 4
                                  - length (data img)) 0%Z |}).
  { intros Hle. unfold cloneImageData, typed_array_set.
    cbn [createImageData data width height]. rewrite length_replicate.
    destruct (Nat.ltb_spec (width img * height img * 4) (length (data img)));
      [lia |].
    now rewrite drop_replicate. }
  split; [| split; [| exact Hshort]].
  - intros [Hlen Hb]. rewrite Hshort by lia. destruct img as [w h d].
    cbn [width height data] in *.
    rewrite Hlen, Nat.sub_diag, (map_clamp_bytes d Hb). cbn [replicate].
    now rewrite app_nil_r.
  - intros Hlong. unfold cloneImageData, typed_array_set.
    cbn [createImageData data width height]. rewrite length_replicate.
    destruct (Nat.ltb_spec (width img * height img * 4) (length (data img)));
      [reflexivity | lia].
Qed.

Lemma cloneImageData_cases_witness :
  cloneImageData gray4 = Some gray4 /\
  cloneImageData {| width := 1; height := 1; data := [1; 2; 3; 4; 5]%Z |} = None.
Proof.
  split.
  - apply (proj1 (cloneImageData_cases gray4)). split; [reflexivity |].
    repeat (apply Forall_cons; split; [lia |]). apply Forall_nil_2.
  - apply (proj1 (proj2 (cloneImageData_cases
             {| width := 1; height := 1; data := [1; 2; 3; 4; 5]%Z |}))).
    vm_compute. lia.
Defined.

(** ** Pixels from the host *)

Lemma length_add_alpha p d i : length (add_alpha p d i) = length d.
Proof. unfold add_alpha. now rewrite !length_store_int. Qed.

Lemma get_add_alpha p d i j :
  i * 4 + 3 < length d ->
  get (add_alpha p d i) j =
  if decide (j = i * 4 + 3) then 255%Z
  else if decide (i * 4 <= j <= i * 4 + 2)
       then clamp_byte (get p (i * 3 + (j - i * 4)))
       else get d j.
Proof.
  intros Hi. unfold add_alpha, store_int.
  rewrite !get_insert, !length_insert.
  repeat case_decide; try lia; try reflexivity; repeat f_equal; lia.
Qed.

Lemma length_add_alpha_fold p d n :
  length (fold_left (add_alpha p) (seq 0 n) d) = length d.
Proof.
  induction n as [| n IH]; [reflexivity |].
  rewrite seq_S, fold_left_app. cbn [fold_left]. now rewrite length_add_alpha.
Qed.

Lemma get_add_alpha_fold p d n j :
  n * 4 <= length d ->
  get (fold_left (add_alpha p) (seq 0 n) d) j =
  if decide (j < n * 4)
  then (if decide (j mod 4 = 3) then 255%Z
        else clamp_byte (get p (j / 4 * 3 + j mod 4)))
  else get d j.
Proof.
  pose proof (Nat.div_mod_eq j 4) as Ej.
  pose proof (Nat.mod_upper_bound j 4 ltac:(lia)) as Bj.
  induction n as [| n IH]; intros Hn.
  - cbn [seq fold_left]. case_decide; [lia | reflexivity].
  - rewrite seq_S, fold_left_app. cbn [fold_left Nat.add].
    rewrite get_add_alpha by (rewrite length_add_alpha_fold; lia).
    rewrite IH by lia.
    repeat case_decide; try lia; try reflexivity.
    all: match goal with
         | |- clamp_byte (get _ ?a) = clamp_byte (get _ ?b) =>
             replace a with b by lia; reflexivity
         end.
Qed.

(** The bytes of the host become an image of the target size: RGBA data
    of the right length is taken as it is; RGB data gets an alpha of 255 at
    every pixel, with R, G and B kept in order; any other length fails. *)
Theorem imageData_of_pixels_cases (w h : nat) (pixelData : list Z) :
  bytes pixelData ->
  (length pixelData = w * h * 4 ->
   imageData_of_pixels w h pixelData
   = Some {| width := w; height := h; data := pixelData |}) /\
  (length pixelData = w * h * 3 -> 0 < w * h ->
   exists img, imageData_of_pixels w h pixelData = Some img /\
     width img = w /\ height img = h /\ valid_image img /\
     forall i, i < w * h ->
       get (data img) (i * 4) = get pixelData (i * 3) /\
       get (data img) (i * 4 + 1) = get pixelData (i * 3 + 1) /\
       get (data img) (i * 4 + 2) = get pixelData (i * 3 + 2) /\
       get (data img) (i * 4 + 3) = 255%Z) /\
  (length pixelData <> w * h * 4 -> length pixelData <> w * h * 3 ->
   imageData_of_pixels w h pixelData = None).
Proof.
  intros Hb. unfold imageData_of_pixels. cbn [createImageData data].
  split; [| split].
  - intros Hlen. rewrite Hlen, Nat.eqb_refl. unfold typed_array_set.
    rewrite length_replicate, Hlen, Nat.ltb_irrefl.
    rewrite drop_replicate, Nat.sub_diag, (map_clamp_bytes _ Hb).
    cbn [replicate]. now rewrite app_nil_r.
  - intros Hlen Hpos.
    destruct (Nat.eqb_spec (length pixelData) (w * h * 4)); [lia |].
    rewrite Hlen, Nat.eqb_refl. eexists. split; [reflexivity |].
    cbn [width height data]. split; [reflexivity |]. split; [reflexivity |].
    assert (Hget : forall j, j < w * h * 4 ->
      get (fold_left (add_alpha pixelData) (seq 0 (w * h))
             (replicate (w * h * 4) 0%Z)) j =
      if decide (j mod 4 = 3) then 255%Z
      else clamp_byte (get pixelData (j / 4 * 3 + j mod 4))).
    { intros j Hj. rewrite get_add_alpha_fold by (rewrite length_replicate; lia).
      case_decide; [reflexivity | lia]. }
    split.
    + unfold valid_image. cbn [width height data].
      split; [now rewrite length_add_alpha_fold, length_replicate |].
      apply Forall_lookup. intros j v Hj.
      pose proof (lookup_lt_Some _ _ _ Hj) as Hlt.
      rewrite length_add_alpha_fold, length_replicate in Hlt.
      assert (Hv : v = get (fold_left (add_alpha pixelData) (seq 0 (w * h))
                              (replicate (w * h * 4) 0%Z)) j)
        by (unfold get; now rewrite Hj).
      rewrite Hv, Hget by exact Hlt.
      case_decide; [lia | apply clamp_byte_range].
    + intros i Hi.
      assert (E0 : (i * 4) mod 4 = 0 /\ i * 4 / 4 = i).
      { split; [symmetry; apply (Nat.mod_unique _ 4 i); lia
               | symmetry; apply (Nat.div_unique _ 4 i 0); lia]. }
      assert (E1 : (i * 4 + 1) mod 4 = 1 /\ (i * 4 + 1) / 4 = i).
      { split; [symmetry; apply (Nat.mod_unique _ 4 i); lia
               | symmetry; apply (Nat.div_unique _ 4 i 1); lia]. }
      assert (E2 : (i * 4 + 2) mod 4 = 2 /\ (i * 4 + 2) / 4 = i).
      { split; [symmetry; apply (Nat.mod_unique _ 4 i); lia
               | symmetry; apply (Nat.div_unique _ 4 i 2); lia]. }
      assert (E3 : (i * 4 + 3) mod 4 = 3).
      { symmetry; apply (Nat.mod_unique _ 4 i); lia. }
      rewrite !Hget by lia.
      destruct E0 as [-> ->], E1 as [-> ->], E2 as [-> ->]. rewrite E3.
      repeat case_decide; try lia.
      rewrite Nat.add_0_r, !get_byte by exact Hb. repeat split.
  - intros H4 H3.
    destruct (Nat.eqb_spec (length pixelData) (w * h * 4)); [lia |].
    destruct (Nat.eqb_spec (length pixelData) (w * h * 3)); [lia |].
    reflexivity.
Qed.

Lemma imageData_of_pixels_cases_witness :
  imageData_of_pixels 1 1 [9; 8; 7; 6]%Z = Some (pixel1 9 8 7 6) /\
  imageData_of_pixels 1 1 [9; 8]%Z = None.
Proof.
  assert (H4 : bytes [9; 8; 7; 6]%Z)
    by (repeat (apply Forall_cons; split; [lia |]); apply Forall_nil_2).
  assert (H2 : bytes [9; 8]%Z)
    by (repeat (apply Forall_cons; split; [lia |]); apply Forall_nil_2).
  split.
  - exact (proj1 (imageData_of_pixels_cases 1 1 [9; 8; 7; 6]%Z H4) eq_refl).
  - apply (proj2 (proj2 (imageData_of_pixels_cases 1 1 [9; 8]%Z H2)));
      vm_compute; lia.
Defined.

(** ** Document validation *)

(** [validateDocument] accepts exactly the 8-bit RGB documents; it reports
    an error message exactly when it rejects, the colour mode is checked
    before the bit depth, and the four document fields are copied. *)
Theorem validateDocument_accepts (doc : DocumentValidator.Document) :
  let info := DocumentValidator.validateDocument doc in
  (DocumentValidator.isValid info = true <->
   DocumentValidator.doc_mode doc = "RGB"%string /\
   DocumentValidator.doc_bitsPerChannel doc = 8%Z) /\
  (DocumentValidator.errorMessage info = None <->
   DocumentValidator.isValid info = true) /\
  (DocumentValidator.doc_mode doc <> "RGB"%string ->
   DocumentValidator.errorMessage info =
   Some "Document must be in RGB mode. Please convert via Image > Mode > RGB Color"%string) /\
  DocumentValidator.width info = DocumentValidator.doc_width doc /\
  DocumentValidator.height info = DocumentValidator.doc_height doc /\
  DocumentValidator.mode info = DocumentValidator.doc_mode doc /\
  DocumentValidator.bitsPerChannel info = DocumentValidator.doc_bitsPerChannel doc.
Proof.
  cbv zeta. unfold DocumentValidator.validateDocument.
  destruct (String.eqb_spec (DocumentValidator.doc_mode doc) "RGB") as [Hm | Hm];
    cbn [negb];
    [destruct (Z.eqb_spec (DocumentValidator.doc_bitsPerChannel doc) 8)
       as [Hbits | Hbits]; cbn [negb] |];
    cbn [DocumentValidator.isValid DocumentValidator.errorMessage
         DocumentValidator.width DocumentValidator.height
         DocumentValidator.mode DocumentValidator.bitsPerChannel];
    repeat split; try tauto; try discriminate; try congruence;
    intros; try discriminate; try tauto.
Qed.

Lemma validateDocument_accepts_witness :
  DocumentValidator.errorMessage
    (DocumentValidator.validateDocument
       {| DocumentValidator.doc_width := 800; DocumentValidator.doc_height := 600;
          DocumentValidator.doc_mode := "CMYK";
          DocumentValidator.doc_bitsPerChannel := 16 |})
  = Some "Document must be in RGB mode. Please convert via Image > Mode > RGB Color"%string.
Proof.
  apply (proj1 (proj2 (proj2 (validateDocument_accepts
          {| DocumentValidator.doc_width := 800; DocumentValidator.doc_height := 600;
             DocumentValidator.doc_mode := "CMYK";
             DocumentValidator.doc_bitsPerChannel := 16 |})))).
  discriminate.
Defined.

(** ** The render effect *)

Lemma pixelSize_table : all_upto pixelSize_ok 150 = true.
Proof. vm_compute. reflexivity. Qed.

(** Over the whole zoom range 50..200 the preview is drawn at one of two
    magnifications only: each image pixel is a 1x1 square below 150%, and a
    2x2 square from 150% on; the canvas is the image size times that
    factor. *)
Theorem pixelSize_steps (img : ImageData) (displayZoom : Z) :
  (50 <= displayZoom <= 200)%Z ->
  let k := if (displayZoom <? 150)%Z then 1%float else 2%float in
  pixelSize displayZoom = k /\
  canvas_dimensions img displayZoom =
  ((of_int (Z.of_nat (width img)) * k)%float,
   (of_int (Z.of_nat (height img)) * k)%float).
Proof.
  intros Hz. cbv zeta.
  assert (Hk : pixelSize displayZoom =
               if (displayZoom <? 150)%Z then 1%float else 2%float).
  { apply FloatAxioms.Leibniz.eqb_spec.
    pose proof (all_upto_spec pixelSize_ok 150 pixelSize_table
                  (displayZoom - 50)%Z ltac:(lia)) as H.
    unfold pixelSize_ok in H.
    now replace (50 + (displayZoom - 50))%Z with displayZoom in H by lia. }
  split; [exact Hk |]. unfold canvas_dimensions. now rewrite Hk.
Qed.

Lemma pixelSize_steps_witness :
  pixelSize 120 = 1%float /\ pixelSize 150 = 2%float.
Proof.
  split.
  - exact (proj1 (pixelSize_steps gray4 120 ltac:(lia))).
  - exact (proj1 (pixelSize_steps gray4 150 ltac:(lia))).
Defined.

(** ** Runs, timers and the cache *)

Section Runs.

Variable Math_pow : number -> number -> number.
Variable getCompositeImageData : nat -> Z -> option ImageData.

Local Abbreviation processImage' := (processImage Math_pow getCompositeImageData).
Local Abbreviation fire_scale' := (fire_scale Math_pow getCompositeImageData).
Local Abbreviation fire_next' := (fire_next Math_pow getCompositeImageData).
Local Abbreviation elapse' := (elapse Math_pow getCompositeImageData).
Local Abbreviation run_events' := (run_events Math_pow getCompositeImageData).

Lemma processImage_capture_eq (ps : PreviewState) (a : App) (img : ImageData) :
  getCompositeImageData (clock a) (processingScale ps) = Some img ->
  processImage' ps false a =
  (process_raw Math_pow ps
     (with_cache (with_state a (set_isProcessing true (previewState a)))
        (Some (length (objects a))) (objects a ++ [img]))
     (length (objects a)),
   {| source := Captured (processingScale ps) (length (objects a));
      scaleAtRun := processingScale (previewState a) |}).
Proof.
  intros Hhost. unfold processImage.
  cbn [clock with_state objects previewState processingScale set_isProcessing].
  now rewrite Hhost.
Qed.

Lemma processImage_failure_eq (ps : PreviewState) (a : App) :
  getCompositeImageData (clock a) (processingScale ps) = None ->
  processImage' ps false a =
  (with_state a (set_isProcessing false (set_isProcessing true (previewState a))),
   {| source := CaptureFailed (processingScale ps);
      scaleAtRun := processingScale (previewState a) |}).
Proof.
  intros Hhost. unfold processImage.
  cbn [clock with_state objects previewState processingScale set_isProcessing].
  now rewrite Hhost.
Qed.

Lemma processImage_frame (ps : PreviewState) (useCache : bool) (a : App) :
  settingsTimer (fst (processImage' ps useCache a)) = settingsTimer a /\
  scaleTimer (fst (processImage' ps useCache a)) = scaleTimer a /\
  clock (fst (processImage' ps useCache a)) = clock a.
Proof.
  unfold processImage.
  destruct (if useCache then _ else _) as [r |].
  - cbn [fst]. exact (process_raw_frame _ _ _ _).
  - cbn [clock with_state]. destruct (getCompositeImageData _ _) as [img |].
    + unfold alloc. cbn [fst]. exact (process_raw_frame _ _ _ _).
    + repeat split.
Qed.

Lemma capture_caches_leveled_object_aux (ps : PreviewState) (a : App)
    (img : ImageData) :
  getCompositeImageData (clock a) (processingScale ps) = Some img ->
  let '(a', run) := processImage' ps false a in
  let r := length (objects a) in
  source run = Captured (processingScale ps) r /\
  cachedRawImageRef a' = Some r /\
  objects a' !! r = Some (levels_image Math_pow (levels ps) img) /\
  forall q o, objects a !! q = Some o -> objects a' !! q = Some o.
Proof.
  intros Hhost. rewrite (processImage_capture_eq ps a img Hhost). cbv zeta.
  set (a1 := with_cache _ _ _).
  assert (Hr : objects a1 !! length (objects a) = Some img)
    by (now apply list_lookup_middle).
  destruct (process_raw_objects Math_pow ps a1 _ _ Hr) as [Hobj Hcache].
  rewrite Hobj, Hcache. cbn [source objects a1 with_cache].
  split; [reflexivity |]. split; [reflexivity |]. split.
  - rewrite lookup_app_l by (rewrite length_insert, length_app; cbn; lia).
    apply list_lookup_insert_eq. rewrite length_app. cbn. lia.
  - intros q o Hq. pose proof (lookup_lt_Some _ _ _ Hq) as Hlt.
    rewrite lookup_app_l by (rewrite length_insert, length_app; cbn; lia).
    rewrite list_lookup_insert_ne by lia.
    now rewrite lookup_app_l.
Qed.

(** A run that captures successfully leaves in the cache the object the
    host returned, rewritten in place by the levels stage (the cache does
    not keep the raw pixels); the objects that existed are untouched. *)
Theorem capture_caches_leveled_object (ps : PreviewState) (a : App)
    (img : ImageData) :
  getCompositeImageData (clock a) (processingScale ps) = Some img ->
  let '(a', run) := processImage' ps false a in
  let r := length (objects a) in
  source run = Captured (processingScale ps) r /\
  cachedRawImageRef a' = Some r /\
  objects a' !! r = Some (levels_image Math_pow (levels ps) img) /\
  forall q o, objects a !! q = Some o -> objects a' !! q = Some o.
Proof. exact (capture_caches_leveled_object_aux ps a img). Qed.

(** Two runs from the cache in a row: the second starts from the pixels
    the first one left, so the levels are applied on top of each other, and
    its output is the dither of that. *)
Theorem cached_runs_compound (ps1 ps2 : PreviewState) (a : App) (r : ref)
    (img : ImageData) :
  cachedRawImageRef a = Some r -> objects a !! r = Some img ->
  let '(a1, run1) := processImage' ps1 true a in
  let '(a2, run2) := processImage' ps2 true a1 in
  source run1 = UsedCache r /\ source run2 = UsedCache r /\
  objects a2 !! r =
    Some (levels_image Math_pow (levels ps2)
            (levels_image Math_pow (levels ps1) img)) /\
  objects a2 !! length (objects a1) =
    Some (floydSteinberg
            (levels_image Math_pow (levels ps2)
               (levels_image Math_pow (levels ps1) img)) (palette ps2)).
Proof.
  intros Hc Hr.
  pose proof (processImage_cached Math_pow getCompositeImageData ps1 a r img
                Hc Hr) as H1.
  destruct (processImage' ps1 true a) as [a1 run1].
  destruct H1 as (Hs1 & _ & Hc1 & Hr1 & _).
  pose proof (processImage_cached Math_pow getCompositeImageData ps2 a1 r _
                Hc1 Hr1) as H2.
  destruct (processImage' ps2 true a1) as [a2 run2].
  destruct H2 as (Hs2 & _ & _ & Hr2 & Hout).
  repeat split; assumption.
Qed.

(** When the capture fails, a run started by the Process button leaves the
    cache, the objects and the last output as they were and ends the
    processing state. *)
Theorem failed_capture_keeps_cache (ps : PreviewState) (a : App) :
  getCompositeImageData (clock a) (processingScale ps) = None ->
  let '(a', run) := processImage' ps false a in
  source run = CaptureFailed (processingScale ps) /\
  cachedRawImageRef a' = cachedRawImageRef a /\
  objects a' = objects a /\
  isProcessing (previewState a') = false /\
  processedImageData (previewState a') = processedImageData (previewState a).
Proof.
  intros Hhost. rewrite (processImage_failure_eq ps a Hhost). repeat split.
Qed.

Lemma scale_timer_clears_cache_aux (t : Timer) (a : App) :
  let '(a', runs) := fire_scale' t a in
  (forall img,
      getCompositeImageData (due t) (processingScale (closure t)) = Some img ->
      runs = [{| source := Captured (processingScale (closure t))
                             (length (objects a));
                 scaleAtRun := processingScale (previewState a) |}] /\
      cachedRawImageRef a' = Some (length (objects a)) /\
      objects a' !! length (objects a)
      = Some (levels_image Math_pow (levels (closure t)) img)) /\
  (getCompositeImageData (due t) (processingScale (closure t)) = None ->
   runs = [{| source := CaptureFailed (processingScale (closure t));
              scaleAtRun := processingScale (previewState a) |}] /\
   cachedRawImageRef a' = None /\ objects a' = objects a).
Proof.
  unfold fire_scale.
  set (a0 := with_cache _ None _).
  assert (Hclk : clock a0 = due t) by reflexivity.
  assert (Hobj : objects a0 = objects a) by reflexivity.
  assert (Hps : previewState a0 = previewState a) by reflexivity.
  destruct (getCompositeImageData (due t) (processingScale (closure t)))
    as [img |] eqn:Hhost.
  - rewrite <- Hclk in Hhost.
    pose proof (capture_caches_leveled_object_aux (closure t) a0 img Hhost) as H.
    rewrite (processImage_capture_eq (closure t) a0 img Hhost) in *.
    cbv zeta in H. destruct H as (_ & Hc & Hr & _).
    rewrite Hobj, Hps in *. split; [| discriminate].
    intros img' Himg. injection Himg as <-. repeat split; assumption.
  - rewrite <- Hclk in Hhost.
    rewrite (processImage_failure_eq (closure t) a0 Hhost).
    rewrite Hps. split; [discriminate |]. intros _. repeat split.
Qed.

(** The callback of the scale timer clears the cache before it captures:
    its run never reads the cache, and when the capture fails the cache
    stays empty although the old buffer was still there. *)
Theorem scale_timer_clears_cache (t : Timer) (a : App) :
  let '(a', runs) := fire_scale' t a in
  (forall img,
      getCompositeImageData (due t) (processingScale (closure t)) = Some img ->
      runs = [{| source := Captured (processingScale (closure t))
                             (length (objects a));
                 scaleAtRun := processingScale (previewState a) |}] /\
      cachedRawImageRef a' = Some (length (objects a)) /\
      objects a' !! length (objects a)
      = Some (levels_image Math_pow (levels (closure t)) img)) /\
  (getCompositeImageData (due t) (processingScale (closure t)) = None ->
   runs = [{| source := CaptureFailed (processingScale (closure t));
              scaleAtRun := processingScale (previewState a) |}] /\
   cachedRawImageRef a' = None /\ objects a' = objects a).
Proof. exact (scale_timer_clears_cache_aux t a). Qed.

Lemma fire_scale_frame (t : Timer) (a : App) :
  settingsTimer (fst (fire_scale' t a)) = settingsTimer a /\
  scaleTimer (fst (fire_scale' t a)) = None.
Proof.
  unfold fire_scale.
  set (a0 := with_cache _ None _).
  destruct (processImage_frame (closure t) false a0) as (Hst & Hsc & _).
  destruct (processImage' (closure t) false a0) as [a1 r1].
  cbn [fst] in *. rewrite Hst, Hsc. split; reflexivity.
Qed.

Lemma elapse_idle (ms : nat) (a : App) :
  (forall t, settingsTimer a = Some t -> clock a + ms < due t) ->
  (forall t, scaleTimer a = Some t -> clock a + ms < due t) ->
  elapse' ms a = (with_clock a (clock a + ms), []).
Proof.
  intros Hst Hsc. unfold elapse.
  assert (Hidle : fire_next' (clock a + ms) a = (a, [])).
  { unfold fire_next.
    destruct (settingsTimer a) as [ts |], (scaleTimer a) as [tc |];
      try specialize (Hst _ eq_refl); try specialize (Hsc _ eq_refl);
      repeat match goal with
             | |- context [?x <=? ?y] => destruct (Nat.leb_spec x y); try lia
             end; reflexivity. }
  now rewrite Hidle, Hidle.
Qed.

Lemma elapse_scale_only (ms : nat) (a : App) (tc : Timer) :
  settingsTimer a = None -> scaleTimer a = Some tc -> due tc <= clock a + ms ->
  snd (elapse' ms a) = snd (fire_scale' tc a).
Proof.
  intros Hst Hsc Hdue. unfold elapse, fire_next at 1. rewrite Hst, Hsc.
  destruct (Nat.leb_spec (due tc) (clock a + ms)); [| lia].
  destruct (fire_scale_frame tc a) as [Hst1 Hsc1].
  destruct (fire_scale' tc a) as [a1 r1]. cbn [fst snd] in *.
  unfold fire_next. rewrite Hst1, Hsc1, Hst. cbn [snd]. apply app_nil_r.
Qed.

(** Debounce of the scale slider: when the scale changes again before the
    500 ms of the first change have passed, the pending run is cancelled;
    the only run happens 500 ms after the last change, and it is a fresh
    capture at the last value. *)
Theorem scale_changes_debounced (a : App) (r : ref) (v1 v2 : Z) (d : nat)
    (img : ImageData) :
  cachedRawImageRef a = Some r ->
  livePreview (previewState a) = true ->
  settingsTimer a = None ->
  v1 <> processingScale (previewState a) -> v2 <> v1 -> d < 500 ->
  getCompositeImageData (clock a + d + 500) v2 = Some img ->
  snd (run_events' a [ChangeProcessingScale v1; Elapse d;
                      ChangeProcessingScale v2; Elapse 499]) = [] /\
  snd (run_events' a [ChangeProcessingScale v1; Elapse d;
                      ChangeProcessingScale v2; Elapse 500])
  = [{| source := Captured v2 (length (objects a)); scaleAtRun := v2 |}].
Proof.
  intros Hc Hlive Hst Hv1 Hv2 Hd Hhost.
  (* first change *)
  destruct (handleProcessingScaleChange_arms a r v1 Hc Hlive Hv1)
    as (Hps1 & Hc1 & Hclk1 & Hobj1 & Hsc1).
  assert (Hst1 : settingsTimer (handleProcessingScaleChange v1 a) = None).
  { unfold handleProcessingScaleChange, scale_effect.
    destruct (negb _); cbn [settingsTimer with_timers with_state]; exact Hst. }
  set (a1 := handleProcessingScaleChange v1 a) in *.
  (* d ms pass, nothing is due *)
  assert (E1 : elapse' d a1 = (with_clock a1 (clock a1 + d), [])).
  { apply elapse_idle; intros t Ht.
    - rewrite Hst1 in Ht. discriminate.
    - rewrite Hsc1 in Ht. injection Ht as <-. cbn [due]. lia. }
  set (a2 := with_clock a1 (clock a1 + d)) in *.
  (* second change *)
  assert (Hc2 : cachedRawImageRef a2 = Some r) by exact Hc1.
  assert (Hlive2 : livePreview (previewState a2) = true).
  { change (previewState a2) with (previewState a1). rewrite Hps1. exact Hlive. }
  assert (Hv2' : v2 <> processingScale (previewState a2)).
  { change (previewState a2) with (previewState a1). rewrite Hps1. exact Hv2. }
  destruct (handleProcessingScaleChange_arms a2 r v2 Hc2 Hlive2 Hv2')
    as (Hps3 & Hc3 & Hclk3 & Hobj3 & Hsc3).
  assert (Hst3 : settingsTimer (handleProcessingScaleChange v2 a2) = None).
  { unfold handleProcessingScaleChange, scale_effect.
    destruct (negb _); cbn [settingsTimer with_timers with_state]; exact Hst1. }
  set (a3 := handleProcessingScaleChange v2 a2) in *.
  assert (Hclk : clock a3 = clock a + d).
  { rewrite Hclk3. change (clock a2) with (clock a1 + d). now rewrite Hclk1. }
  assert (Hdue : due {| due := clock a2 + 500;
                        closure := set_processingScale v2 (previewState a2) |}
                 = clock a + d + 500).
  { cbn [due]. change (clock a2) with (clock a1 + d). now rewrite Hclk1. }
  split.
  - cbn [run_events step]. fold a1. rewrite E1. fold a3.
    rewrite elapse_idle; [reflexivity | |]; intros t Ht.
    + rewrite Hst3 in Ht. discriminate.
    + rewrite Hsc3 in Ht. injection Ht as <-. cbn [due]. lia.
  - cbn [run_events step]. fold a1. rewrite E1. fold a3.
    pose proof (elapse_scale_only 500 a3 _ Hst3 Hsc3 ltac:(cbn [due]; lia)) as E3.
    destruct (elapse' 500 a3) as [a4 runs]. cbn [snd app] in *.
    rewrite app_nil_r, E3.
    pose proof (scale_timer_clears_cache_aux
                  {| due := clock a2 + 500;
                     closure := set_processingScale v2 (previewState a2) |} a3)
      as Hfire.
    destruct (fire_scale' _ a3) as [a5 runs5]. cbn [snd].
    destruct Hfire as [Hok _].
    rewrite Hdue in Hok. cbn [closure processingScale set_processingScale] in Hok.
    destruct (Hok img Hhost) as (Hruns & _).
    rewrite Hruns, Hps3, Hobj3.
    change (objects a2) with (objects a1). now rewrite Hobj1.
Qed.

End Runs.

Lemma capture_caches_leveled_object_witness :
  let '(a', run) :=
    processImage (fun x _ => x) (constant_host (pixel1 200 200 200 255))
      (set_levels {| blackPoint := 220; midPoint := 1%float; whitePoint := 255 |}
         initialPreviewState) false initialApp in
  cachedRawImageRef a' = Some 0 /\ objects a' !! 0 = Some (pixel1 0 0 0 255).
Proof.
  pose proof (capture_caches_leveled_object (fun x _ => x)
                (constant_host (pixel1 200 200 200 255))
                (set_levels {| blackPoint := 220; midPoint := 1%float;
                               whitePoint := 255 |} initialPreviewState)
                initialApp (pixel1 200 200 200 255) eq_refl) as H.
  destruct (processImage _ _ _ false initialApp) as [a' run].
  destruct H as (_ & Hc & Hr & _). split; [exact Hc | exact Hr].
Defined.

Lemma cached_runs_compound_witness :
  let host := constant_host (pixel1 0 0 0 255) in
  let a := fst (clickProcess (fun x _ => x) host initialApp) in
  let '(a1, run1) := processImage (fun x _ => x) host initialPreviewState true a in
  let '(a2, run2) := processImage (fun x _ => x) host initialPreviewState true a1 in
  source run1 = UsedCache 0 /\ source run2 = UsedCache 0.
Proof.
  cbv zeta.
  pose proof (cached_runs_compound (fun x _ => x)
                (constant_host (pixel1 0 0 0 255))
                initialPreviewState initialPreviewState
                (fst (clickProcess (fun x _ => x)
                        (constant_host (pixel1 0 0 0 255)) initialApp))
                0 (pixel1 0 0 0 255)
                ltac:(vm_compute; reflexivity) ltac:(vm_compute; reflexivity))
    as H.
  destruct (processImage _ _ initialPreviewState true _) as [a1 run1].
  destruct (processImage _ _ initialPreviewState true a1) as [a2 run2].
  destruct H as (H1 & H2 & _). split; assumption.
Defined.

Lemma failed_capture_keeps_cache_witness :
  let '(a', run) :=
    processImage (fun x _ => x) (fun _ _ => None) initialPreviewState false
      initialApp in
  source run = CaptureFailed 10 /\ cachedRawImageRef a' = None.
Proof.
  pose proof (failed_capture_keeps_cache (fun x _ => x) (fun _ _ => None)
                initialPreviewState initialApp eq_refl) as H.
  destruct (processImage _ _ initialPreviewState false initialApp) as [a' run].
  destruct H as (H1 & H2 & _). split; assumption.
Defined.

Lemma scale_timer_clears_cache_witness :
  let '(a', runs) :=
    fire_scale (fun x _ => x) (fun _ _ => None)
      {| due := 500; closure := initialPreviewState |}
      (fst (clickProcess (fun x _ => x) (constant_host (pixel1 0 0 0 255))
              initialApp)) in
  cachedRawImageRef a' = None.
Proof.
  pose proof (scale_timer_clears_cache (fun x _ => x) (fun _ _ => None)
                {| due := 500; closure := initialPreviewState |}
                (fst (clickProcess (fun x _ => x)
                        (constant_host (pixel1 0 0 0 255)) initialApp))) as H.
  destruct (fire_scale _ _ _ _) as [a' runs].
  destruct H as [_ Hfail]. exact (proj1 (proj2 (Hfail eq_refl))).
Defined.

Lemma scale_changes_debounced_witness :
  let host := constant_host (pixel1 0 0 0 255) in
  let a := fst (clickProcess (fun x _ => x) host initialApp) in
  snd (run_events (fun x _ => x) host a
         [ChangeProcessingScale 20; Elapse 100; ChangeProcessingScale 30;
          Elapse 499]) = [] /\
  snd (run_events (fun x _ => x) host a
         [ChangeProcessingScale 20; Elapse 100; ChangeProcessingScale 30;
          Elapse 500])
  = [{| source := Captured 30 2; scaleAtRun := 30 |}].
Proof.
  cbv zeta.
  exact (scale_changes_debounced (fun x _ => x)
           (constant_host (pixel1 0 0 0 255))
           (fst (clickProcess (fun x _ => x)
                   (constant_host (pixel1 0 0 0 255)) initialApp))
           0 20 30 100 (pixel1 0 0 0 255)
           ltac:(vm_compute; reflexivity) ltac:(vm_compute; reflexivity)
           ltac:(vm_compute; reflexivity) ltac:(vm_compute; discriminate)
           ltac:(discriminate) ltac:(lia) eq_refl).
Defined.

(** ** Visited pixels are never written again *)

Lemma after_visits_length (img : ImageData) (pal : list string) (k : nat) :
  length (after_visits img pal k) = width img * height img * 4.
Proof.
  unfold after_visits.
  now rewrite length_fold_visits, length_copy_into, length_replicate.
Qed.

Lemma after_visits_S (img : ImageData) (pal : list string) (k : nat) :
  k < width img * height img ->
  after_visits img pal (S k) =
  fs_pixel (width img) (height img) pal (after_visits img pal k)
    (k / width img) (k mod width img).
Proof.
  intros Hk. unfold after_visits.
  rewrite (take_S_r _ _ (k mod width img, k / width img))
    by (now apply raster_lookup).
  now rewrite fold_left_app.
Qed.

Lemma after_visits_all (img : ImageData) (pal : list string) :
  after_visits img pal (width img * height img) = data (floydSteinberg img pal).
Proof.
  unfold after_visits. rewrite floydSteinberg_raster.
  now rewrite firstn_all2 by (rewrite length_raster; lia).
Qed.

(** The colour a pixel gets at its visit is final: the k-th pixel of the
    scan has, in the output, the palette colour chosen for the values it
    held when it was visited, and no later visit writes to it.  The first
    pixel in particular is matched on the input values themselves. *)
Theorem visited_pixel_final (img : ImageData) (pal : list string) (j : nat) :
  j < width img * height img ->
  let w := width img in
  let before := after_visits img pal j in
  rgb_at w (data (floydSteinberg img pal)) (j mod w) (j / w) =
  clamp_rgb
    (findClosestColor (get before (pixel_index w (j mod w) (j / w)))
       (get before (pixel_index w (j mod w) (j / w) + 1))
       (get before (pixel_index w (j mod w) (j / w) + 2)) pal) /\
  (bytes (data img) ->
   rgb_at w (data (floydSteinberg img pal)) 0 0 =
   clamp_rgb (findClosestColor (get (data img) 0) (get (data img) 1)
                (get (data img) 2) pal)).
Proof.
  intros Hj. cbv zeta.
  set (w := width img) in *. set (h := height img) in *.
  assert (Hw : w <> 0) by lia.
  assert (Hx : j mod w < w) by now apply Nat.mod_upper_bound.
  assert (Hy : j / w < h) by (apply Nat.Div0.div_lt_upper_bound; lia).
  assert (Hlater : forall k, j < k -> k <= w * h ->
            rgb_at w (after_visits img pal k) (j mod w) (j / w) =
            rgb_at w (after_visits img pal (S j)) (j mod w) (j / w)).
  { induction k as [| k IH]; intros Hjk Hk; [lia |].
    destruct (Nat.eq_dec j k) as [-> | Hne]; [reflexivity |].
    rewrite after_visits_S by (fold w h; lia). fold w h.
    rewrite rgb_at_earlier by (rewrite ?after_visits_length; fold w h; lia).
    apply IH; lia. }
  assert (Hfinal :
    rgb_at w (data (floydSteinberg img pal)) (j mod w) (j / w) =
    clamp_rgb
      (findClosestColor
         (get (after_visits img pal j) (pixel_index w (j mod w) (j / w)))
         (get (after_visits img pal j) (pixel_index w (j mod w) (j / w) + 1))
         (get (after_visits img pal j) (pixel_index w (j mod w) (j / w) + 2))
         pal)).
  { rewrite <- after_visits_all. fold w h.
    rewrite (Hlater (w * h)) by lia.
    rewrite after_visits_S by (fold w h; lia). fold w h.
    apply (rgb_at_visited w h); try assumption.
    apply after_visits_length. }
  split; [exact Hfinal |].
  intros Hb.
  assert (H0 : 0 < w * h) by lia.
  clear Hfinal Hlater Hx Hy.
  (* the statement at j = 0 *)
  assert (Hx0 : 0 mod w = 0) by (now apply Nat.Div0.mod_0_l).
  assert (Hy0 : 0 / w = 0) by (now apply Nat.Div0.div_0_l).
  assert (Hlater0 : forall k, 0 < k -> k <= w * h ->
            rgb_at w (after_visits img pal k) 0 0 =
            rgb_at w (after_visits img pal 1) 0 0).
  { induction k as [| k IH]; intros Hjk Hk; [lia |].
    destruct (Nat.eq_dec 0 k) as [<- | Hne]; [reflexivity |].
    rewrite after_visits_S by (fold w h; lia). fold w h.
    pose proof (rgb_at_earlier w h pal (after_visits img pal k) 0 k) as He.
    rewrite Hx0, Hy0 in He. rewrite He
      by (rewrite ?after_visits_length; fold w h; lia).
    apply IH; lia. }
  rewrite <- after_visits_all. fold w h. rewrite (Hlater0 (w * h)) by lia.
  rewrite after_visits_S by (fold w h; lia). fold w h.
  rewrite Hx0, Hy0.
  rewrite (rgb_at_visited w h) by (rewrite ?after_visits_length; fold w h; lia).
  change (pixel_index w 0 0) with 0. cbn [Nat.add].
  unfold after_visits. fold w h.
  change (take 0 (raster w h)) with (@nil (nat * nat)). cbn [fold_left].
  rewrite !get_copy_into by lia. now rewrite !get_byte.
Qed.

Lemma visited_pixel_final_witness :
  rgb_at 4 (data (floydSteinberg gray4 DEFAULT_PALETTE)) 0 0 =
  clamp_rgb (findClosestColor 128 128 128 DEFAULT_PALETTE).
Proof.
  apply (proj2 (visited_pixel_final gray4 DEFAULT_PALETTE 0
                  ltac:(vm_compute; lia))).
  repeat (apply Forall_cons; split; [lia |]). apply Forall_nil_2.
Defined.

(** ** The worker *)

(** The worker answers a [DITHER] request for 'floyd-steinberg' with a
    well-formed image of the input's dimensions, a [DITHER] request for any
    other algorithm with the error "Unknown algorithm: <name>", and any
    other message with nothing. *)
Theorem onmessage_cases (type algorithm : string) (imageData : ImageData)
    (palette : list string) :
  (type <> "DITHER"%string ->
   onmessage type imageData algorithm palette = None) /\
  (type = "DITHER"%string -> algorithm <> "floyd-steinberg"%string ->
   onmessage type imageData algorithm palette
   = Some (ERROR ("Unknown algorithm: " ++ algorithm))) /\
  (type = "DITHER"%string -> algorithm = "floyd-steinberg"%string ->
   exists out, onmessage type imageData algorithm palette
               = Some (DITHER_COMPLETE out) /\
     valid_image out /\ width out = width imageData /\
     height out = height imageData).
Proof.
  unfold onmessage.
  destruct (String.eqb_spec type "DITHER") as [Ht | Ht];
    destruct (String.eqb_spec algorithm "floyd-steinberg") as [Ha | Ha];
    repeat split; try tauto; try congruence.
  intros _ _. exists (floydSteinberg imageData palette).
  split; [reflexivity |]. split; [apply floydSteinberg_valid_aux |].
  split; reflexivity.
Qed.

Lemma onmessage_cases_witness :
  onmessage "DITHER" gray4 "atkinson" DEFAULT_PALETTE
  = Some (ERROR "Unknown algorithm: atkinson").
Proof.
  apply (proj1 (proj2 (onmessage_cases "DITHER" "atkinson" gray4
                         DEFAULT_PALETTE))); [reflexivity | discriminate].
Defined.
